(** * Measurement-uncertainty statistics of volumetric instruments

    A shallow embedding of the statistical core of the three analysis scripts

      - [volume_uncertainty_analysis_v11.py]        (module [VolumeV11]),
      - [instrument_uncertainty_kde_analysis_v2.py] (module [KdeV2]),
      - [instrument_relative_error_overlay_v5.py]   (module [OverlayV5]),

    together with the NumPy / SciPy operations they call.

    Numbers.  The scripts compute on NumPy [float64] values.  A value is
    modelled as a [float]: a real number, one of the two infinities, or NaN.
    Arithmetic on finite values is exact real arithmetic (rounding and
    overflow are not modelled); on the special values it follows IEEE 754,
    which is what NumPy does (it warns, it never raises).  There is a single
    zero, read as [+0] when it divides.  The general theorems are stated in
    this exact arithmetic.

    Where rounding decides an outcome (whether a standard deviation is
    exactly 0, whether a covariance is singular), the module [Binary64]
    replays the same operations on IEEE 754 binary64 values, for concrete
    runs.

    Drawing (matplotlib) and printing are not modelled: a function returns
    the numbers it hands to the plotting calls, and a statement about a
    script is a statement about those numbers.  The names of the picture
    files, the font set-up and the colour of each instrument are modelled
    in [Files] and after it, the state of the file system being an input. *)

From Stdlib Require Import String.
From Stdlib Require Import Reals Lra Lia ZArith Bool List.
From Stdlib Require Import Permutation Sorted.
From Stdlib Require Floats.
Import ListNotations.

Open Scope R_scope.

(* ================================================================== *)
(** * Float values *)
(* ================================================================== *)

Inductive float : Type :=
| Num (x : R)            (* a finite value *)
| Inf (negative : bool)  (* [Inf false] is +inf, [Inf true] is -inf *)
| NaN.

Notation "'PInf'" := (Inf false).
Notation "'NInf'" := (Inf true).


Definition is_nan (a : float) : bool :=
  match a with NaN => true | _ => false end.

(** Three-way comparison of reals, used to branch on a sign. *)
Definition Rcmp (x y : R) : comparison :=
  match total_order_T x y with
  | inleft (left _) => Lt
  | inleft (right _) => Eq
  | inright _ => Gt
  end.

Definition Rltb (x y : R) : bool := if Rlt_dec x y then true else false.

Definition fneg (a : float) : float :=
  match a with
  | Num x => Num (- x)
  | Inf s => Inf (negb s)
  | NaN => NaN
  end.

Definition fabs (a : float) : float :=
  match a with
  | Num x => Num (Rabs x)
  | Inf _ => PInf
  | NaN => NaN
  end.

Definition fadd (a b : float) : float :=
  match a, b with
  | NaN, _ | _, NaN => NaN
  | Num x, Num y => Num (x + y)
  | Num _, Inf s | Inf s, Num _ => Inf s
  | Inf s, Inf s' => if Bool.eqb s s' then Inf s else NaN
  end.

Definition fsub (a b : float) : float := fadd a (fneg b).

(** [inf * x]: the sign of [x] decides, [inf * 0] is NaN. *)
Definition inf_scaled (s : bool) (x : R) : float :=
  match Rcmp x 0 with
  | Gt => Inf s
  | Lt => Inf (negb s)
  | Eq => NaN
  end.

Definition fmul (a b : float) : float :=
  match a, b with
  | NaN, _ | _, NaN => NaN
  | Num x, Num y => Num (x * y)
  | Num x, Inf s | Inf s, Num x => inf_scaled s x
  | Inf s, Inf s' => Inf (xorb s s')
  end.

(** Division as [numpy.true_divide]: a finite non-zero value over zero is an
    infinity, zero over zero is NaN, and nothing is raised. *)
Definition fdiv (a b : float) : float :=
  match a, b with
  | NaN, _ | _, NaN => NaN
  | Num x, Num y =>
      match Rcmp y 0 with
      | Eq => match Rcmp x 0 with
              | Gt => PInf
              | Lt => NInf
              | Eq => NaN
              end
      | _ => Num (x / y)
      end
  | Num _, Inf _ => Num 0
  | Inf s, Num y =>
      match Rcmp y 0 with
      | Lt => Inf (negb s)
      | _ => Inf s
      end
  | Inf _, Inf _ => NaN
  end.

Definition fsqrt (a : float) : float :=
  match a with
  | Num x => if Rltb x 0 then NaN else Num (sqrt x)
  | PInf => PInf
  | NInf => NaN
  | NaN => NaN
  end.

(** [numpy.floor] and [numpy.ceil]. *)
Definition ffloor (a : float) : float :=
  match a with
  | Num x => Num (IZR (Zfloor x))
  | _ => a
  end.

Definition fceil (a : float) : float :=
  match a with
  | Num x => Num (IZR (Zceil x))
  | _ => a
  end.

(** The comparison [a < b]: false as soon as one side is NaN. *)
Definition flt (a b : float) : bool :=
  match a, b with
  | NaN, _ | _, NaN => false
  | Num x, Num y => Rltb x y
  | Num _, Inf s => negb s
  | Inf s, Num _ => s
  | Inf s, Inf s' => s && negb s'
  end.

Definition fgt (a b : float) : bool := flt b a.

(** The order in which NumPy sorts: by value, every NaN last. *)
Definition sort_le (a b : float) : bool :=
  match a, b with
  | _, NaN => true
  | NaN, _ => false
  | _, _ => negb (flt b a)
  end.

(* ================================================================== *)
(** * Exceptions *)
(* ================================================================== *)

(** The exceptions the modelled library calls raise. *)
Inductive exn : Type :=
| ValueError
| LinAlgError.

Inductive result (A : Type) : Type :=
| Ok (a : A)
| Raise (e : exn).

Arguments Ok {A} a.
Arguments Raise {A} e.

Definition bind {A B : Type} (r : result A) (k : A -> result B) : result B :=
  match r with
  | Ok a => k a
  | Raise e => Raise e
  end.

Notation "x <- r ;; k" := (bind r (fun x => k))
  (at level 61, r at next level, right associativity).

(** [try: r except (LinAlgError, ValueError) / except Exception: handler]:
    both handlers of the scripts catch every exception of [exn]. *)
Definition try_except {A B : Type} (r : result A) (body : A -> B) (handler : exn -> B) : B :=
  match r with
  | Ok a => body a
  | Raise e => handler e
  end.

(* ================================================================== *)
(** * NumPy *)
(* ================================================================== *)

(** An array of [float64] is a list. *)
Definition ndarray : Type := list float.

(** [arr / c], [arr * c], [arr - c] with a scalar [c] (broadcasting). *)
Definition arr_div (a : ndarray) (c : float) : ndarray := map (fun x => fdiv x c) a.
Definition arr_mul (a : ndarray) (c : float) : ndarray := map (fun x => fmul x c) a.
Definition arr_sub (a : ndarray) (c : float) : ndarray := map (fun x => fsub x c) a.

(** [numpy.sum]: the additive reduction, from 0. *)
Definition np_sum (a : ndarray) : float := fold_left fadd a (Num 0).

Definition count (a : ndarray) : float := Num (INR (length a)).

(** [numpy.mean(a)]: the sum over the number of items (NaN on an empty array). *)
Definition np_mean (a : ndarray) : float := fdiv (np_sum a) (count a).

(** [numpy.var(a, ddof=ddof)]: the mean is subtracted, the deviations are
    squared and summed, and the sum is divided by [max(n - ddof, 0)]. *)
Definition np_var (ddof : nat) (a : ndarray) : float :=
  let arrmean := np_mean a in
  let x := arr_sub a arrmean in
  let x := map (fun d => fmul d d) x in
  fdiv (np_sum x) (Num (INR (length a - ddof))).

(** [numpy.std(a, ddof=ddof)]. *)
Definition np_std (ddof : nat) (a : ndarray) : float := fsqrt (np_var ddof a).

(** [numpy.minimum] and [numpy.maximum] propagate NaN. *)
Definition np_minimum (a b : float) : float :=
  match a, b with
  | NaN, _ | _, NaN => NaN
  | _, _ => if flt b a then b else a
  end.

Definition np_maximum (a b : float) : float :=
  match a, b with
  | NaN, _ | _, NaN => NaN
  | _, _ => if flt a b then b else a
  end.

(** [numpy.min] and [numpy.max]: a zero-size array has no minimum, which is
    a [ValueError]. *)
Definition np_min (a : ndarray) : result float :=
  match a with
  | [] => Raise ValueError
  | x :: l => Ok (fold_left np_minimum l x)
  end.

Definition np_max (a : ndarray) : result float :=
  match a with
  | [] => Raise ValueError
  | x :: l => Ok (fold_left np_maximum l x)
  end.

(** [numpy.linspace(start, stop, num)] for [num >= 2]: [num - 1] steps of
    [(stop - start) / (num - 1)] from [start], the last point being [stop]
    itself. *)
Definition linspace (start stop : float) (num : nat) : ndarray :=
  let div := (num - 1)%nat in
  let step := fdiv (fsub stop start) (Num (INR div)) in
  map (fun i => fadd (fmul (Num (INR i)) step) start) (seq 0 div) ++ [stop].

(** [numpy.argmax]: the first index of the largest item, a NaN counting as
    the largest.  [argmax_from] scans [l], whose first item has index [i],
    with the best item [best] so far found at index [ibest]. *)
Fixpoint argmax_from (l : ndarray) (i ibest : nat) (best : float) : nat :=
  match l with
  | [] => ibest
  | x :: l' =>
      if is_nan best then ibest
      else if is_nan x || flt best x then argmax_from l' (S i) i x
      else argmax_from l' (S i) ibest best
  end.

Definition np_argmax (a : ndarray) : result nat :=
  match a with
  | [] => Raise ValueError
  | x :: l => Ok (argmax_from l 1 0 x)
  end.

(** [numpy.sort]: insertion in the order [sort_le]. *)
Fixpoint insert_sorted (x : float) (l : ndarray) : ndarray :=
  match l with
  | [] => [x]
  | y :: l' => if sort_le x y then x :: l else y :: insert_sorted x l'
  end.

Definition np_sort (a : ndarray) : ndarray := fold_right insert_sorted [] a.

(** The slice [a[lo:hi]] for indices within range. *)
Definition slice (lo hi : nat) (a : ndarray) : ndarray := firstn (hi - lo) (skipn lo a).

(** Python's built-in [max] over a non-empty iterable: the first item, then
    every later item that compares greater. *)
Definition py_max (first : float) (rest : list float) : float :=
  fold_left (fun m x => if fgt x m then x else m) rest first.

(** [numpy.exp]. *)
Definition fexp (a : float) : float :=
  match a with
  | Num x => Num (exp x)
  | Inf false => Inf false
  | Inf true => Num 0
  | NaN => NaN
  end.

(* ================================================================== *)
(** * SciPy *)
(* ================================================================== *)

Module SciPy.

(** The Gamma function at the half-integer [k / 2]. *)
Fixpoint gamma_half (k : nat) : R :=
  match k with
  | O => 0
  | S O => sqrt PI
  | S (S O) => 1
  | S (S k') => INR k' / 2 * gamma_half k'
  end.

(** The density of the standard Student t distribution with [df] degrees of
    freedom ([scipy.stats.t._pdf]). *)
Definition t_pdf_std (df : Z) (x : R) : R :=
  let nu := IZR df in
  gamma_half (Z.to_nat (df + 1)) / (sqrt (nu * PI) * gamma_half (Z.to_nat df))
  * Rpower (1 + x * x / nu) (- ((nu + 1) / 2)).

(** [scipy.stats.t.pdf(x, df=df, loc=loc, scale=scale)]: NaN unless the
    shape and the scale are positive; otherwise the standard density at
    [(x - loc) / scale], over [scale]; the density is 0 outside the open
    support, that is at an infinite standardised point. *)
Definition t_pdf (x : float) (df : Z) (loc scale : float) : float :=
  if (0 <? df)%Z && flt (Num 0) scale then
    match fdiv (fsub x loc) scale with
    | Num y => fdiv (Num (t_pdf_std df y)) scale
    | Inf _ => Num 0
    | NaN => NaN
    end
  else NaN.

(** [scipy.stats.trim_mean(a, proportiontocut)] for a proportion that is not
    negative: [int(proportiontocut * nobs)] items are sliced off each end of
    the array put in order, and the rest is averaged.  SciPy orders the
    array by [numpy.partition] at the two cut indices, which leaves in the
    slice the items a full sort leaves there. *)
Definition trim_mean (a : ndarray) (proportiontocut : R) : result float :=
  match a with
  | [] => Ok NaN
  | _ =>
      let nobs := length a in
      let lowercut := Z.to_nat (Zfloor (proportiontocut * INR nobs)) in
      let uppercut := (nobs - lowercut)%nat in
      if (uppercut <? lowercut)%nat then Raise ValueError
      else
        let atmp := np_sort a in
        Ok (np_mean (slice lowercut uppercut atmp))
  end.

(** A Gaussian kernel density estimate of a one-dimensional dataset: the
    data and the kernel covariance. *)
Record kde : Type := {
  dataset : ndarray;
  covariance : R
}.

(** [scipy.stats.gaussian_kde(dataset)]: a dataset of at most one item is a
    [ValueError]; the kernel covariance is the sample variance (divisor
    [n - 1]) times the square of Scott's factor [n ** (-1/5)]; factorising
    it raises [LinAlgError] when it is not positive, and [ValueError] when
    it is not finite. *)
Definition gaussian_kde (data : ndarray) : result kde :=
  let n := length data in
  if (n <=? 1)%nat then Raise ValueError
  else
    let factor := Rpower (INR n) (- (1 / 5)) in
    match fmul (np_var 1 data) (Num (factor * factor)) with
    | Num c =>
        if Rltb 0 c then Ok {| dataset := data; covariance := c |}
        else Raise LinAlgError
    | _ => Raise ValueError
    end.

(** [kde(points)] at one point: the mean over the data of the Gaussian
    kernel of variance [covariance] centred on each item. *)
Definition kde_evaluate (k : kde) (p : float) : float :=
  let c := covariance k in
  let kernel xi :=
    let d := fsub xi p in
    fexp (fneg (fdiv (fmul d d) (Num (2 * c)))) in
  fdiv (fdiv (np_sum (map kernel (dataset k))) (count (dataset k)))
       (Num (sqrt (2 * PI * c))).

Section Student.

(** The cumulative distribution function of the standard Student t
    distribution, by degrees of freedom.  SciPy computes it through special
    functions; the development is parametric in it. *)
Variable t_cdf : Z -> R -> R.

(** The survival function [1 - cdf] of [scipy.stats.t(df)]. *)
Definition t_sf (df : Z) (t : float) : float :=
  if (0 <? df)%Z then
    match t with
    | Num x => Num (1 - t_cdf df x)
    | Inf false => Num 0
    | Inf true => Num 1
    | NaN => NaN
    end
  else NaN.

(** [scipy.stats.ttest_1samp(a, popmean, alternative='two-sided')]: the
    statistic is the deviation of the mean from [popmean] over
    [sqrt(var / n)], the division being done with the warnings silenced; the
    p-value is twice the survival function at the absolute statistic. *)
Definition ttest_1samp (a : ndarray) (popmean : float) : float * float :=
  let n := length a in
  let df := (Z.of_nat n - 1)%Z in
  let mean := np_mean a in
  let d := fsub mean popmean in
  let v := np_var 1 a in
  let denom := fsqrt (fdiv v (Num (INR n))) in
  let t := fdiv d denom in
  let prob := fmul (Num 2) (t_sf df (fabs t)) in
  (t, prob).

End Student.

End SciPy.

(* ================================================================== *)
(** * volume_uncertainty_analysis_v11.py *)
(* ================================================================== *)

Module VolumeV11.

(** What [analyze_and_plot] computes and hands to the plotting calls. *)
Record Figure : Type := {
  calculated_volumes : ndarray;
  t_statistic : float;
  p_value : float;
  significant : bool;          (* the branch [p_value < alpha] *)
  df : Z;
  mu : float;
  sigma : float;
  relative_error : float;
  x_min : float;
  x_max : float;
  x_curve : ndarray;
  y_curve_t : ndarray;
  sigma_ticks : list float
}.

Section Script.

Variable t_cdf : Z -> R -> R.

Definition analyze_and_plot (instrument_name : string)
    (target_volume density : float) (raw_weights : ndarray) : result Figure :=
  let calculated_volumes := arr_div raw_weights density in
  let '(t_statistic, p_value) :=
    SciPy.ttest_1samp t_cdf calculated_volumes target_volume in
  let alpha := Num (5 / 100) in
  let data_to_plot := calculated_volumes in
  let n := length data_to_plot in
  let df := (Z.of_nat n - 1)%Z in
  let mu := np_mean data_to_plot in
  let sigma := np_std 1 data_to_plot in
  let relative_error :=
    fmul (fdiv (fsub mu target_volume) target_volume) (Num 100) in
  let x_min := fsub mu (fmul (Num 4) sigma) in
  let x_max := fadd mu (fmul (Num 4) sigma) in
  let x_curve := linspace x_min x_max 1000 in
  let y_curve_t := map (fun x => SciPy.t_pdf x df mu sigma) x_curve in
  Ok {| calculated_volumes := calculated_volumes;
        t_statistic := t_statistic;
        p_value := p_value;
        significant := flt p_value alpha;
        df := df;
        mu := mu;
        sigma := sigma;
        relative_error := relative_error;
        x_min := x_min;
        x_max := x_max;
        x_curve := x_curve;
        y_curve_t := y_curve_t;
        sigma_ticks :=
          [ fsub mu (fmul (Num 3) sigma); fsub mu (fmul (Num 2) sigma);
            fsub mu (fmul (Num 1) sigma); mu;
            fadd mu (fmul (Num 1) sigma); fadd mu (fmul (Num 2) sigma);
            fadd mu (fmul (Num 3) sigma) ] |}.

(** An experiment of [all_experiments]:
    [(instrument_name, target_volume, density, weights_array)]. *)
Definition experiment : Type := (string * float * float * ndarray)%type.

(** The loop of [main]: every experiment is analysed in turn, an exception
    of one being caught and reported before the next is taken. *)
Definition main_loop (all_experiments : list experiment) : list (string * result Figure) :=
  map (fun '(name, target, density, weights) =>
         (name, analyze_and_plot name target density weights))
      all_experiments.

End Script.

End VolumeV11.

(* ================================================================== *)
(** * instrument_uncertainty_kde_analysis_v2.py *)
(* ================================================================== *)

Module KdeV2.

Record Figure : Type := {
  calculated_volumes : ndarray;
  t_statistic : float;
  p_value : float;
  significant : bool;
  df : Z;
  mu : float;
  sigma : float;
  trimmed_mean : option float;      (* [None] when it could not be computed *)
  relative_error : float;
  x_min : float;
  x_max : float;
  x_curve : ndarray;
  y_curve_t : ndarray;
  y_curve_kde : option ndarray;     (* [None]: no KDE curve is drawn *)
  kde_peak_x : option float;        (* [None]: no KDE-mode line is drawn *)
  sigma_ticks : list float
}.

(** The body of the [try] that draws the KDE curve: the curve over
    [x_curve] and the abscissa of its largest value. *)
Definition kde_curve_and_peak (data_to_plot x_curve : ndarray) : result (ndarray * float) :=
  kde <- SciPy.gaussian_kde data_to_plot ;;
  let y_curve_kde := map (SciPy.kde_evaluate kde) x_curve in
  kde_peak_idx <- np_argmax y_curve_kde ;;
  let kde_peak_x := nth kde_peak_idx x_curve NaN in
  Ok (y_curve_kde, kde_peak_x).

Section Script.

Variable t_cdf : Z -> R -> R.

Definition analyze_and_plot (instrument_name : string)
    (target_volume density : float) (raw_weights : ndarray) : result Figure :=
  let calculated_volumes := arr_div raw_weights density in
  let '(t_statistic, p_value) :=
    SciPy.ttest_1samp t_cdf calculated_volumes target_volume in
  let alpha := Num (5 / 100) in
  let data_to_plot := calculated_volumes in
  let n := length data_to_plot in
  let df := (Z.of_nat n - 1)%Z in
  let mu := np_mean data_to_plot in
  let sigma := np_std 1 data_to_plot in
  let trimmed_mean :=
    try_except (SciPy.trim_mean data_to_plot (1 / 6))
      (fun m => Some m) (fun _ => None) in
  let relative_error :=
    fmul (fdiv (fsub mu target_volume) target_volume) (Num 100) in
  let x_min := fsub mu (fmul (Num 4) sigma) in
  let x_max := fadd mu (fmul (Num 4) sigma) in
  let x_curve := linspace x_min x_max 1000 in
  let y_curve_t := map (fun x => SciPy.t_pdf x df mu sigma) x_curve in
  let '(y_curve_kde, kde_peak_x) :=
    try_except (kde_curve_and_peak data_to_plot x_curve)
      (fun '(y, x) => (Some y, Some x)) (fun _ => (None, None)) in
  Ok {| calculated_volumes := calculated_volumes;
        t_statistic := t_statistic;
        p_value := p_value;
        significant := flt p_value alpha;
        df := df;
        mu := mu;
        sigma := sigma;
        trimmed_mean := trimmed_mean;
        relative_error := relative_error;
        x_min := x_min;
        x_max := x_max;
        x_curve := x_curve;
        y_curve_t := y_curve_t;
        y_curve_kde := y_curve_kde;
        kde_peak_x := kde_peak_x;
        sigma_ticks :=
          [ fsub mu (fmul (Num 3) sigma); fsub mu (fmul (Num 2) sigma);
            fsub mu (fmul (Num 1) sigma); mu;
            fadd mu (fmul (Num 1) sigma); fadd mu (fmul (Num 2) sigma);
            fadd mu (fmul (Num 3) sigma) ] |}.

Definition experiment : Type := (string * float * float * ndarray)%type.

Definition main_loop (all_experiments : list experiment) : list (string * result Figure) :=
  map (fun '(name, target, density, weights) =>
         (name, analyze_and_plot name target density weights))
      all_experiments.

End Script.

End KdeV2.

(* ================================================================== *)
(** * instrument_relative_error_overlay_v5.py *)
(* ================================================================== *)

Module OverlayV5.

(** A value of the dictionary [results]. *)
Record stats : Type := {
  relative_errors : ndarray;
  mu_err : float;
  sigma_err : float;
  df : Z
}.

(** A Python [dict] with string keys: the items in insertion order; setting
    a key that is present replaces its value where it stands. *)
Definition dict (V : Type) : Type := list (string * V).

Fixpoint dict_set {V : Type} (d : dict V) (k : string) (v : V) : dict V :=
  match d with
  | [] => [(k, v)]
  | (k', v') :: d' =>
      if String.eqb k' k then (k', v) :: d' else (k', v') :: dict_set d' k v
  end.

Definition experiment : Type := (string * float * float * ndarray)%type.

(** The statistics of one instrument, in relative-error space. *)
Definition instrument_stats (target density : float) (weights : ndarray) : stats :=
  let abs_volumes := arr_div weights density in
  let rel_volumes := arr_mul (arr_div abs_volumes target) (Num 100) in
  let rel_errors := arr_sub rel_volumes (Num 100) in
  let mu_err := np_mean rel_errors in
  let sigma_err := np_std 1 rel_errors in
  let n := length rel_errors in
  let df := (Z.of_nat n - 1)%Z in
  {| relative_errors := rel_errors;
     mu_err := mu_err;
     sigma_err := sigma_err;
     df := df |}.

(** The first loop: [results] and [all_relative_errors] after the
    experiments of the group. *)
Definition collect (experiments_in_group : list experiment) : dict stats * ndarray :=
  fold_left
    (fun '(results, all_relative_errors) '(name, target, density, weights) =>
       let res := instrument_stats target density weights in
       (dict_set results name res, all_relative_errors ++ relative_errors res))
    experiments_in_group ([], []).

(** The x-axis range shared by the figures of a group. *)
Definition x_range (results : dict stats) (all_relative_errors : ndarray) : result (float * float) :=
  overall_min <- np_min all_relative_errors ;;
  overall_max <- np_max all_relative_errors ;;
  let max_sigma :=
    match map (fun kv => sigma_err (snd kv)) results with
    | s :: rest => py_max s rest
    | [] => Num 1
    end in
  let x_min := fsub overall_min (fmul (Num 4) max_sigma) in
  let x_max := fadd overall_max (fmul (Num 4) max_sigma) in
  let x_min := fdiv (ffloor (fmul x_min (Num 10))) (Num 10) in
  let x_max := fdiv (fceil (fmul x_max (Num 10))) (Num 10) in
  Ok (x_min, x_max).

(** Figure A, one instrument: the t curve over [x_curve] and the point
    drawn and labelled at its peak. *)
Record t_plot : Type := {
  y_curve_t : ndarray;
  peak_t : float * float
}.

Definition plot_t (x_curve : ndarray) (res : stats) : t_plot :=
  let y_curve_t :=
    map (fun x => SciPy.t_pdf x (df res) (mu_err res) (sigma_err res)) x_curve in
  let peak_t_y := SciPy.t_pdf (mu_err res) (df res) (mu_err res) (sigma_err res) in
  {| y_curve_t := y_curve_t; peak_t := (mu_err res, peak_t_y) |}.

(** Figure B, one instrument: the KDE curve and the point drawn at its
    largest value, or [None] when the curve could not be drawn (the legend
    then says so). *)
Record kde_plot : Type := {
  y_curve_kde : ndarray;
  kde_peak : float * float
}.

Definition kde_curve_and_peak (x_curve : ndarray) (res : stats) : result kde_plot :=
  kde <- SciPy.gaussian_kde (relative_errors res) ;;
  let y_curve_kde := map (SciPy.kde_evaluate kde) x_curve in
  kde_peak_idx <- np_argmax y_curve_kde ;;
  let kde_peak_x := nth kde_peak_idx x_curve NaN in
  let kde_peak_y := nth kde_peak_idx y_curve_kde NaN in
  Ok {| y_curve_kde := y_curve_kde; kde_peak := (kde_peak_x, kde_peak_y) |}.

Definition plot_kde (x_curve : ndarray) (res : stats) : option kde_plot :=
  try_except (kde_curve_and_peak x_curve res) (fun p => Some p) (fun _ => None).

Record Figures : Type := {
  results : dict stats;
  x_min : float;
  x_max : float;
  x_curve : ndarray;
  figure_t : dict t_plot;
  figure_kde : dict (option kde_plot)
}.

Definition generate_overlay_plots (group_name : string)
    (experiments_in_group : list experiment) (output_dir : string) : result Figures :=
  let '(results, all_relative_errors) := collect experiments_in_group in
  range <- x_range results all_relative_errors ;;
  let '(x_min, x_max) := range in
  let x_curve := linspace x_min x_max 1000 in
  Ok {| results := results;
        x_min := x_min;
        x_max := x_max;
        x_curve := x_curve;
        figure_t := map (fun '(name, res) => (name, plot_t x_curve res)) results;
        figure_kde := map (fun '(name, res) => (name, plot_kde x_curve res)) results |}.

End OverlayV5.

(* ================================================================== *)
(** * Binary64 replay *)
(* ================================================================== *)

(** The statistics of the scripts once more, on IEEE 754 binary64 values
    (the kernel's primitive floats), every operation rounded as the
    hardware rounds it.  It serves concrete runs in which rounding decides
    the outcome.  Sums run from left to right, which is how NumPy adds
    fewer than eight items. *)
Module Binary64.

Import PrimFloat.
Local Open Scope float_scope.

Definition of_nat (n : nat) : float := of_uint63 (Uint63.of_Z (Z.of_nat n)).

Definition arr_div (a : list float) (c : float) : list float := map (fun x => x / c) a.

Definition np_sum (a : list float) : float := fold_left add a 0.

Definition np_mean (a : list float) : float := np_sum a / of_nat (length a).

Definition np_var (ddof : nat) (a : list float) : float :=
  let arrmean := np_mean a in
  let x := map (fun v => v - arrmean) a in
  let x := map (fun d => d * d) x in
  np_sum x / of_nat (length a - ddof).

Definition np_std (ddof : nat) (a : list float) : float := sqrt (np_var ddof a).

(** The statistic of [scipy.stats.ttest_1samp]. *)
Definition t_statistic (a : list float) (popmean : float) : float :=
  let n := of_nat (length a) in
  let d := np_mean a - popmean in
  let v := np_var 1 a in
  let denom := sqrt (v / n) in
  d / denom.




(** The single-instrument scripts: [sigma], [relative_error], the
    t-statistic, and whether the KDE curve is left out. *)
Definition sigma (density : float) (raw_weights : list float) : float :=
  np_std 1 (arr_div raw_weights density).

Definition relative_error (target_volume density : float) (raw_weights : list float) : float :=
  let mu := np_mean (arr_div raw_weights density) in
  (mu - target_volume) / target_volume * 100.






End Binary64.

(* ================================================================== *)
(** * The statistics of the specification *)
(* ================================================================== *)

(** The quantities the specification names, over the reals: the program's
    results on finite data are compared with them. *)
Module Stat.

Definition sum (l : list R) : R := fold_right Rplus 0 l.

(** The arithmetic mean. *)
Definition mean (l : list R) : R := sum l / INR (length l).

(** The sample variance and standard deviation, with the divisor [N - 1]. *)
Definition sample_var (l : list R) : R :=
  sum (map (fun x => (x - mean l) * (x - mean l)) l) / INR (length l - 1).

Definition sample_std (l : list R) : R := sqrt (sample_var l).

(** The smallest and the largest value of a list. *)
Definition is_min (m : R) (l : list R) : Prop := In m l /\ forall x, In x l -> m <= x.
Definition is_max (m : R) (l : list R) : Prop := In m l /\ forall x, In x l -> x <= m.

(** Sorting in increasing order. *)
Fixpoint insert (x : R) (l : list R) : list R :=
  match l with
  | [] => [x]
  | y :: l' => if Rle_dec x y then x :: l else y :: insert x l'
  end.

Definition sort (l : list R) : list R := fold_right insert [] l.

(** The trimmed mean: the values in order, [N / 6] of them (rounded down)
    dropped from each tail, the rest averaged. *)
Definition trimmed_mean (l : list R) : R :=
  let k := (length l / 6)%nat in
  mean (firstn (length l - 2 * k) (skipn k (sort l))).

(** Rounding down and up to one decimal place. *)
Definition floor10 (x : R) : R := IZR (Zfloor (x * 10)) / 10.
Definition ceil10 (x : R) : R := IZR (Zceil (x * 10)) / 10.

(** The relative-error series of a sample: percent deviation of each volume
    from the target. *)
Definition relative_errors (target density : R) (weights : list R) : list R :=
  map (fun w => w / density / target * 100 - 100) weights.

(** The density of the t distribution with [df] degrees of freedom located
    at [mu] and scaled by [sigma]. *)
Definition t_density (df : Z) (mu sigma x : R) : R :=
  SciPy.t_pdf_std df ((x - mu) / sigma) / sigma.

(** The Gaussian kernel density estimate of the data [l] with kernel
    variance [c], at the point [p]. *)
Definition kde_density (l : list R) (c p : R) : R :=
  sum (map (fun xi => exp (- ((xi - p) * (xi - p) / (2 * c)))) l) / INR (length l)
  / sqrt (2 * PI * c).

(** [num] evenly spaced points from [a] to [b], both included. *)
Definition grid (a b : R) (num : nat) : list R :=
  map (fun i => a + INR i * ((b - a) / INR (num - 1))) (seq 0 num).


End Stat.

(** An instrument record with finite data. *)
Record instrument : Type := {
  i_name : string;
  i_target : R;
  i_density : R;
  i_weights : list R
}.

(** The input contract of the specification. *)
Definition valid (i : instrument) : Prop :=
  (2 <= length (i_weights i))%nat /\ 0 < i_target i /\ 0 < i_density i.

(** The tuple the scripts take for an instrument. *)
Definition experiment_of (i : instrument) : string * float * float * ndarray :=
  (i_name i, Num (i_target i), Num (i_density i), map Num (i_weights i)).

Definition volumes_of (i : instrument) : list R :=
  map (fun w => w / i_density i) (i_weights i).

Definition errors_of (i : instrument) : list R :=
  Stat.relative_errors (i_target i) (i_density i) (i_weights i).

(** The relative errors of all the instruments of a group. *)
Definition all_errors (group : list instrument) : list R := flat_map errors_of group.

(** The overlay script's statistics of an instrument. *)
Definition stats_of (i : instrument) : OverlayV5.stats :=
  OverlayV5.instrument_stats (Num (i_target i)) (Num (i_density i)) (map Num (i_weights i)).

(** Two instruments with two weights each, for the instances. *)
Definition pipette : instrument :=
  {| i_name := "pipette"; i_target := 2; i_density := 1; i_weights := [1; 3] |}.

Definition burette : instrument :=
  {| i_name := "burette"; i_target := 4; i_density := 1; i_weights := [3; 5] |}.

(** The cumulative distribution function of Student's t distribution with
    one degree of freedom (the Cauchy distribution): the instance of [t_cdf]
    for samples of two items. *)
Definition cauchy_cdf (df : Z) (x : R) : R := 1 / 2 + atan x / PI.

(** A distribution function of a law symmetric about 0. *)
Definition symmetric_cdf (F : Z -> R -> R) : Prop :=
  forall df x, F df (- x) = 1 - F df x.





(* ================================================================== *)
(** * Output files, fonts and colours *)
(* ================================================================== *)

(** The parts of the scripts around the statistics: the name of the picture
    file, the font set-up and the colour of each instrument.  The file
    system and the font file are inputs: whether a path exists, how
    [os.makedirs] ends, the name read from the font file. *)
Module Files.

(** A Python [str]: its Unicode code points. *)
Definition str : Type := list N.

(** A literal of ASCII characters. *)
Definition of_string (s : string) : str :=
  map Ascii.N_of_ascii (list_ascii_of_string s).

Definition space : N := 32.
Definition slash : N := 47.
Definition underscore : N := 95.
Definition latin_u : N := 117.
(** The Greek small letter mu, U+03BC, as the scripts spell it. *)
Definition mu : N := 956.

(** [s.replace(old, new)] for strings [old] and [new] of one character. *)
Definition replace (old new : N) (s : str) : str :=
  map (fun c => if N.eqb c old then new else c) s.

(** [b.startswith('/')] and [path.endswith('/')]. *)
Definition startswith_sep (b : str) : bool :=
  match b with
  | c :: _ => N.eqb c slash
  | [] => false
  end.

Definition endswith_sep (path : str) : bool := startswith_sep (rev path).

(** [os.path.join(path, b)] on POSIX: an absolute [b] stands alone;
    otherwise [b] follows [path], after a separator unless [path] is empty
    or ends with one. *)
Definition path_join (path b : str) : str :=
  if startswith_sep b then b
  else if match path with [] => true | _ => false end || endswith_sep path then path ++ b
  else path ++ slash :: b.

(** How [os.makedirs] ends. *)
Inductive makedirs : Type :=
| Made
| OSError.

(** The directory the single-instrument scripts save to: [output_dir], or
    the current directory when it is missing and cannot be made. *)
Definition saving_dir (output_dir : str) (dir_exists : bool) (made : makedirs) : str :=
  if dir_exists then output_dir
  else match made with
       | Made => output_dir
       | OSError => of_string "."
       end.

Definition safe_filename (instrument_name : str) : str :=
  replace mu latin_u (replace slash underscore (replace space underscore instrument_name)).

(** [file_name] of [volume_uncertainty_analysis_v11.py]. *)
Definition v11_file_name (instrument_name : str) (dir_exists : bool) (made : makedirs) : str :=
  let output_dir :=
    saving_dir (of_string "output_condensed_with_sigma_lines") dir_exists made in
  path_join output_dir (safe_filename instrument_name ++ of_string "_condensed_sigma_plot.png").

(** [file_name] of [instrument_uncertainty_kde_analysis_v2.py]. *)
Definition v2_file_name (instrument_name : str) (dir_exists : bool) (made : makedirs) : str :=
  let output_dir := saving_dir (of_string "output05") dir_exists made in
  path_join output_dir (safe_filename instrument_name ++ of_string "_analysis_plot.png").

(** The overlay script: [safe_group_name], [file_name_t], [file_name_kde]. *)
Definition safe_group_name (group_name : str) : str :=
  replace slash underscore (replace space underscore group_name).

Definition file_name_t (group_name output_dir : str) : str :=
  path_join output_dir
    (of_string "overlay_t_error_" ++ safe_group_name group_name ++ of_string ".png").

Definition file_name_kde (group_name output_dir : str) : str :=
  path_join output_dir
    (of_string "overlay_kde_error_" ++ safe_group_name group_name ++ of_string ".png").



End Files.

(** Reading a Python [dict]: [d[k]], [None] standing for [KeyError]. *)
Fixpoint dict_get {V : Type} (d : OverlayV5.dict V) (k : string) : option V :=
  match d with
  | [] => None
  | (k', v) :: d' => if String.eqb k' k then Some v else dict_get d' k
  end.

(** [instrument_colors] of the overlay script: the [i]-th key of [results]
    gets [colors[i]], written here as the index [i]; [colors] has one entry
    per experiment of the group. *)
Definition instrument_colors (results : OverlayV5.dict OverlayV5.stats) : OverlayV5.dict nat :=
  combine (map fst results) (seq 0 (length results)).

(** The last experiment of a group that bears a name. *)
Fixpoint last_named (name : string) (experiments : list OverlayV5.experiment)
    : option OverlayV5.experiment :=
  match experiments with
  | [] => None
  | e :: rest =>
      match last_named name rest with
      | Some e' => Some e'
      | None => if String.eqb (fst (fst (fst e))) name then Some e else None
      end
  end.

(** The statistics of an experiment. *)
Definition experiment_stats (e : OverlayV5.experiment) : OverlayV5.stats :=
  let '(_, target, density, weights) := e in
  OverlayV5.instrument_stats target density weights.

(** What a character of an instrument name becomes in the file name, and
    the names the file names do not tell apart. *)
Definition in_file_name (c : N) : N :=
  if N.eqb c Files.space || N.eqb c Files.slash then Files.underscore
  else if N.eqb c Files.mu then Files.latin_u
  else c.

Definition same_file_name (name1 name2 : Files.str) : Prop :=
  map in_file_name name1 = map in_file_name name2.

(** A distribution function does not decrease. *)
Definition increasing_cdf (F : Z -> R -> R) : Prop :=
  forall df x y, x <= y -> F df x <= F df y.


(* ================================================================== *)
(** * Float arithmetic on finite values *)
(* ================================================================== *)


Lemma Rcmp_Lt x y : x < y -> Rcmp x y = Lt.
Proof.
  intros H. unfold Rcmp. destruct (total_order_T x y) as [[Hlt | Heq] | Hgt]; auto; lra.
Qed.

Lemma Rcmp_Eq x y : x = y -> Rcmp x y = Eq.
Proof.
  intros H. unfold Rcmp. destruct (total_order_T x y) as [[Hlt | Heq] | Hgt]; auto; lra.
Qed.

Lemma Rcmp_neq x y : x <> y -> Rcmp x y <> Eq.
Proof.
  intros H. unfold Rcmp. destruct (total_order_T x y) as [[Hlt | Heq] | Hgt]; congruence.
Qed.

Lemma Rltb_true x y : x < y -> Rltb x y = true.
Proof. intros H. unfold Rltb. destruct (Rlt_dec x y); auto; contradiction. Qed.

Lemma Rltb_false x y : y <= x -> Rltb x y = false.
Proof. intros H. unfold Rltb. destruct (Rlt_dec x y); auto; lra. Qed.

Lemma Rltb_spec x y : Rltb x y = true <-> x < y.
Proof.
  unfold Rltb. destruct (Rlt_dec x y); split; intros; auto; try discriminate; contradiction.
Qed.

Lemma fdiv_Num x y : y <> 0 -> fdiv (Num x) (Num y) = Num (x / y).
Proof.
  intros H. simpl. generalize (Rcmp_neq y 0 H). destruct (Rcmp y 0); congruence.
Qed.

Lemma fdiv_zero_zero : fdiv (Num 0) (Num 0) = NaN.
Proof. simpl. rewrite !Rcmp_Eq; reflexivity. Qed.

Lemma fsqrt_Num x : 0 <= x -> fsqrt (Num x) = Num (sqrt x).
Proof. intros H. simpl. rewrite Rltb_false; auto. Qed.

Lemma fsub_Num x y : fsub (Num x) (Num y) = Num (x - y).
Proof. reflexivity. Qed.


(** The absolute statistic does not see the sign of the deviation. *)
Lemma fabs_fdiv_opp x b : fabs (fdiv (Num (- x)) b) = fabs (fdiv (Num x) b).
Proof.
  destruct b as [y | s | ]; simpl; auto.
  destruct (Rcmp y 0) eqn:Hy.
  - unfold Rcmp. destruct (total_order_T (- x) 0) as [[H1 | H1] | H1];
      destruct (total_order_T x 0) as [[H2 | H2] | H2]; auto; lra.
  - simpl. f_equal. unfold Rdiv. rewrite Ropp_mult_distr_l_reverse. apply Rabs_Ropp.
  - simpl. f_equal. unfold Rdiv. rewrite Ropp_mult_distr_l_reverse. apply Rabs_Ropp.
Qed.

(* ================================================================== *)
(** * NumPy reductions on finite arrays *)
(* ================================================================== *)

Lemma fold_fadd_Num l a :
  fold_left fadd (map Num l) (Num a) = Num (a + Stat.sum l).
Proof.
  revert a. induction l as [| x l IH]; intros a; simpl.
  - f_equal. lra.
  - rewrite IH. f_equal. lra.
Qed.

Lemma np_sum_Num l : np_sum (map Num l) = Num (Stat.sum l).
Proof. unfold np_sum. rewrite fold_fadd_Num. f_equal. lra. Qed.

Lemma INR_length_neq_0 {A : Type} (l : list A) : l <> [] -> INR (length l) <> 0.
Proof.
  intros H. destruct l; [congruence |]. apply not_0_INR. simpl. lia.
Qed.

Lemma np_mean_Num l : l <> [] -> np_mean (map Num l) = Num (Stat.mean l).
Proof.
  intros H. unfold np_mean, count. rewrite np_sum_Num, length_map.
  rewrite fdiv_Num; auto using INR_length_neq_0.
Qed.

Lemma map_map_Num (f : float -> float) (g : R -> R) l :
  (forall x, f (Num x) = Num (g x)) -> map f (map Num l) = map Num (map g l).
Proof.
  intros H. rewrite !map_map. apply map_ext. auto.
Qed.

Lemma np_var_Num l :
  (2 <= length l)%nat -> np_var 1 (map Num l) = Num (Stat.sample_var l).
Proof.
  intros H. assert (Hne : l <> []) by (destruct l; simpl in H; [lia | congruence]).
  unfold np_var, arr_sub. rewrite np_mean_Num by auto.
  rewrite (map_map_Num _ (fun x => x - Stat.mean l)) by reflexivity.
  rewrite (map_map_Num _ (fun d => d * d)) by reflexivity.
  rewrite np_sum_Num, length_map, map_map.
  rewrite fdiv_Num; [reflexivity |].
  apply not_0_INR. lia.
Qed.

Lemma sum_squares_nonneg (f : R -> R) l : 0 <= Stat.sum (map (fun x => f x * f x) l).
Proof.
  induction l as [| x l IH]; simpl; [lra |].
  generalize (Rle_0_sqr (f x)). unfold Rsqr. lra.
Qed.

Lemma sample_var_nonneg l : 0 <= Stat.sample_var l.
Proof.
  unfold Stat.sample_var.
  destruct (Nat.eq_dec (length l - 1) 0) as [E | E].
  - rewrite E. simpl. unfold Rdiv. rewrite Rinv_0. lra.
  - apply Rmult_le_pos; [apply sum_squares_nonneg with (f := fun x => x - Stat.mean l) |].
    apply Rlt_le, Rinv_0_lt_compat, lt_0_INR. lia.
Qed.

Lemma np_std_Num l :
  (2 <= length l)%nat -> np_std 1 (map Num l) = Num (Stat.sample_std l).
Proof.
  intros H. unfold np_std. rewrite np_var_Num by auto.
  apply fsqrt_Num, sample_var_nonneg.
Qed.

Lemma arr_div_Num l c :
  c <> 0 -> arr_div (map Num l) (Num c) = map Num (map (fun x => x / c) l).
Proof.
  intros H. unfold arr_div. apply map_map_Num. intros x. apply fdiv_Num; auto.
Qed.

(* ================================================================== *)
(** * The one-sample t-test *)
(* ================================================================== *)

Section TTest.

Variable t_cdf : Z -> R -> R.

Lemma sample_std_pos_var l : 0 < Stat.sample_std l -> 0 < Stat.sample_var l.
Proof.
  unfold Stat.sample_std. intros H.
  destruct (Rle_lt_or_eq_dec _ _ (sample_var_nonneg l)) as [Hlt | Heq]; auto.
  rewrite <- Heq, sqrt_0 in H. lra.
Qed.

(** The standard error: [sqrt (var / n)] is [sigma / sqrt n]. *)
Lemma standard_error l :
  l <> [] ->
  sqrt (Stat.sample_var l / INR (length l)) = Stat.sample_std l / sqrt (INR (length l)).
Proof.
  intros H. unfold Stat.sample_std. apply sqrt_div.
  - apply sample_var_nonneg.
  - destruct l; [congruence |]. apply lt_0_INR. simpl. lia.
Qed.

Lemma standard_error_pos l :
  l <> [] -> 0 < Stat.sample_std l -> 0 < Stat.sample_std l / sqrt (INR (length l)).
Proof.
  intros H Hs. apply Rdiv_lt_0_compat; auto.
  apply sqrt_lt_R0. destruct l; [congruence |]. apply lt_0_INR. simpl. lia.
Qed.

Lemma ttest_1samp_finite l popmean :
  (2 <= length l)%nat -> 0 < Stat.sample_std l ->
  let t := (Stat.mean l - popmean) / (Stat.sample_std l / sqrt (INR (length l))) in
  SciPy.ttest_1samp t_cdf (map Num l) (Num popmean)
  = (Num t, Num (2 * (1 - t_cdf (Z.of_nat (length l) - 1) (Rabs t)))).
Proof.
  intros Hn Hs t.
  assert (Hne : l <> []) by (destruct l; simpl in Hn; [lia | congruence]).
  unfold SciPy.ttest_1samp.
  rewrite np_mean_Num, np_var_Num, length_map by auto.
  rewrite fdiv_Num by (apply INR_length_neq_0; auto).
  rewrite fsqrt_Num.
  2:{ apply Rmult_le_pos; [apply sample_var_nonneg |].
      apply Rlt_le, Rinv_0_lt_compat. destruct l; [congruence |].
      apply lt_0_INR. simpl. lia. }
  rewrite standard_error by auto.
  rewrite fsub_Num, fdiv_Num.
  2:{ generalize (standard_error_pos l Hne Hs). lra. }
  fold t. simpl fabs. unfold SciPy.t_sf.
  replace (0 <? Z.of_nat (length l) - 1)%Z with true
    by (symmetry; apply Z.ltb_lt; lia).
  reflexivity.
Qed.

(** A symmetric law has half of its mass on each side of 0. *)
Lemma symmetric_cdf_0 df : symmetric_cdf t_cdf -> t_cdf df 0 = 1 / 2.
Proof.
  intros H. generalize (H df 0). rewrite Ropp_0. lra.
Qed.

Lemma v11_fields name target_volume density raw_weights :
  VolumeV11.analyze_and_plot t_cdf name target_volume density raw_weights
  = let vols := arr_div raw_weights density in
    let tp := SciPy.ttest_1samp t_cdf vols target_volume in
    let mu := np_mean vols in
    let sigma := np_std 1 vols in
    let x_min := fsub mu (fmul (Num 4) sigma) in
    let x_max := fadd mu (fmul (Num 4) sigma) in
    let x_curve := linspace x_min x_max 1000 in
    let df := (Z.of_nat (length vols) - 1)%Z in
    Ok {| VolumeV11.calculated_volumes := vols;
          VolumeV11.t_statistic := fst tp;
          VolumeV11.p_value := snd tp;
          VolumeV11.significant := flt (snd tp) (Num (5 / 100));
          VolumeV11.df := df;
          VolumeV11.mu := mu;
          VolumeV11.sigma := sigma;
          VolumeV11.relative_error :=
            fmul (fdiv (fsub mu target_volume) target_volume) (Num 100);
          VolumeV11.x_min := x_min;
          VolumeV11.x_max := x_max;
          VolumeV11.x_curve := x_curve;
          VolumeV11.y_curve_t := map (fun x => SciPy.t_pdf x df mu sigma) x_curve;
          VolumeV11.sigma_ticks :=
            [ fsub mu (fmul (Num 3) sigma); fsub mu (fmul (Num 2) sigma);
              fsub mu (fmul (Num 1) sigma); mu;
              fadd mu (fmul (Num 1) sigma); fadd mu (fmul (Num 2) sigma);
              fadd mu (fmul (Num 3) sigma) ] |}.
Proof. reflexivity. Qed.

End TTest.

Section Scripts.

Variable t_cdf : Z -> R -> R.

Lemma v2_fields name target_volume density raw_weights :
  KdeV2.analyze_and_plot t_cdf name target_volume density raw_weights
  = let vols := arr_div raw_weights density in
    let tp := SciPy.ttest_1samp t_cdf vols target_volume in
    let mu := np_mean vols in
    let sigma := np_std 1 vols in
    let x_min := fsub mu (fmul (Num 4) sigma) in
    let x_max := fadd mu (fmul (Num 4) sigma) in
    let x_curve := linspace x_min x_max 1000 in
    let df := (Z.of_nat (length vols) - 1)%Z in
    let kde := KdeV2.kde_curve_and_peak vols x_curve in
    Ok {| KdeV2.calculated_volumes := vols;
          KdeV2.t_statistic := fst tp;
          KdeV2.p_value := snd tp;
          KdeV2.significant := flt (snd tp) (Num (5 / 100));
          KdeV2.df := df;
          KdeV2.mu := mu;
          KdeV2.sigma := sigma;
          KdeV2.trimmed_mean :=
            try_except (SciPy.trim_mean vols (1 / 6)) (fun m => Some m) (fun _ => None);
          KdeV2.relative_error :=
            fmul (fdiv (fsub mu target_volume) target_volume) (Num 100);
          KdeV2.x_min := x_min;
          KdeV2.x_max := x_max;
          KdeV2.x_curve := x_curve;
          KdeV2.y_curve_t := map (fun x => SciPy.t_pdf x df mu sigma) x_curve;
          KdeV2.y_curve_kde := try_except kde (fun p => Some (fst p)) (fun _ => None);
          KdeV2.kde_peak_x := try_except kde (fun p => Some (snd p)) (fun _ => None);
          KdeV2.sigma_ticks :=
            [ fsub mu (fmul (Num 3) sigma); fsub mu (fmul (Num 2) sigma);
              fsub mu (fmul (Num 1) sigma); mu;
              fadd mu (fmul (Num 1) sigma); fadd mu (fmul (Num 2) sigma);
              fadd mu (fmul (Num 3) sigma) ] |}.
Proof.
  unfold KdeV2.analyze_and_plot. cbv zeta.
  destruct (KdeV2.kde_curve_and_peak _ _) as [[y x] | e]; reflexivity.
Qed.

(** C4. Both single-instrument scripts compute the volume series
    elementwise: for a sample of N >= 2 finite weights and a density > 0,
    [calculated_volumes] has the length of the sample and its item [i] is
    [weights[i] / density], in the order of the sample. *)
Theorem volumes_elementwise (name : string) (target_volume : float)
    (density : R) (weights : list R) :
  (2 <= length weights)%nat -> 0 < density ->
  exists fig11 fig2,
    VolumeV11.analyze_and_plot t_cdf name target_volume (Num density) (map Num weights) = Ok fig11
    /\ KdeV2.analyze_and_plot t_cdf name target_volume (Num density) (map Num weights) = Ok fig2
    /\ VolumeV11.calculated_volumes fig11 = KdeV2.calculated_volumes fig2
    /\ length (VolumeV11.calculated_volumes fig11) = length weights
    /\ forall i, (i < length weights)%nat ->
         nth i (VolumeV11.calculated_volumes fig11) NaN = Num (nth i weights 0 / density).
Proof.
  intros _ Hd. rewrite v11_fields, v2_fields. cbv zeta.
  eexists. eexists. split; [reflexivity |]. split; [reflexivity |]. simpl.
  split; [reflexivity |].
  rewrite arr_div_Num by lra. rewrite !length_map. split; [reflexivity |].
  intros i Hi.
  rewrite (nth_indep _ NaN (Num 0)) by (rewrite !length_map; auto).
  rewrite (map_nth Num), (nth_indep _ 0 (0 / density)) by (rewrite length_map; auto).
  rewrite (map_nth (fun x => x / density)). reflexivity.
Qed.

(** C1. For a sample of N >= 2 finite weights with sample standard
    deviation sigma > 0, density > 0 and target > 0, the t-statistic of both
    scripts is [(mu - target) / (sigma / sqrt N)], mu and sigma being the
    mean and the sample standard deviation of the volumes
    [weights / density], and the p-value is [2 * (1 - CDF(|t|, N - 1))];
    when mu is the target, t is 0 and, the t distribution being symmetric,
    the p-value is 1. *)
Theorem t_test_formula (name : string) (target_volume density : R) (weights : list R) :
  symmetric_cdf t_cdf ->
  (2 <= length weights)%nat -> 0 < density -> 0 < target_volume ->
  let volumes := map (fun w => w / density) weights in
  let N := length weights in
  let mu := Stat.mean volumes in
  let sigma := Stat.sample_std volumes in
  let t := (mu - target_volume) / (sigma / sqrt (INR N)) in
  0 < sigma ->
  exists fig11 fig2,
    VolumeV11.analyze_and_plot t_cdf name (Num target_volume) (Num density) (map Num weights)
      = Ok fig11
    /\ KdeV2.analyze_and_plot t_cdf name (Num target_volume) (Num density) (map Num weights)
      = Ok fig2
    /\ VolumeV11.t_statistic fig11 = Num t
    /\ VolumeV11.p_value fig11 = Num (2 * (1 - t_cdf (Z.of_nat N - 1) (Rabs t)))
    /\ KdeV2.t_statistic fig2 = Num t
    /\ KdeV2.p_value fig2 = Num (2 * (1 - t_cdf (Z.of_nat N - 1) (Rabs t)))
    /\ (mu = target_volume ->
        VolumeV11.t_statistic fig11 = Num 0 /\ VolumeV11.p_value fig11 = Num 1
        /\ KdeV2.t_statistic fig2 = Num 0 /\ KdeV2.p_value fig2 = Num 1).
Proof.
  intros Hsym Hn Hd Ht volumes N mu sigma t Hs.
  assert (Hlen : length volumes = N) by apply length_map.
  assert (Htt : SciPy.ttest_1samp t_cdf (arr_div (map Num weights) (Num density))
                  (Num target_volume)
                = (Num t, Num (2 * (1 - t_cdf (Z.of_nat N - 1) (Rabs t))))).
  { rewrite arr_div_Num by lra. fold volumes.
    rewrite ttest_1samp_finite; rewrite ?Hlen; auto. }
  rewrite v11_fields, v2_fields. cbv zeta. rewrite Htt.
  eexists. eexists. split; [reflexivity |]. split; [reflexivity |]. simpl.
  repeat (split; [reflexivity |]).
  intros Hmu.
  assert (Ht0 : t = 0) by (unfold t; rewrite Hmu; unfold Rdiv; ring).
  rewrite Ht0, Rabs_R0, symmetric_cdf_0 by auto.
  replace (2 * (1 - 1 / 2)) with 1 by lra. auto.
Qed.

End Scripts.

(* ================================================================== *)
(** * Degenerate and invalid inputs *)
(* ================================================================== *)


Lemma fsub_NaN_l a : fsub NaN a = NaN.
Proof. reflexivity. Qed.


Section Degenerate.

Variable t_cdf : Z -> R -> R.


(** The t-test of a finite sample, whatever its standard deviation. *)
Lemma ttest_1samp_Num l popmean :
  (2 <= length l)%nat ->
  let t := fdiv (Num (Stat.mean l - popmean))
                (Num (sqrt (Stat.sample_var l / INR (length l)))) in
  SciPy.ttest_1samp t_cdf (map Num l) (Num popmean)
  = (t, fmul (Num 2) (SciPy.t_sf t_cdf (Z.of_nat (length l) - 1) (fabs t))).
Proof.
  intros Hn t.
  assert (Hne : l <> []) by (destruct l; simpl in Hn; [lia | congruence]).
  unfold SciPy.ttest_1samp.
  rewrite np_mean_Num, np_var_Num, length_map by auto.
  rewrite fdiv_Num by (apply INR_length_neq_0; auto).
  rewrite fsqrt_Num.
  2:{ apply Rmult_le_pos; [apply sample_var_nonneg |].
      apply Rlt_le, Rinv_0_lt_compat. destruct l; [congruence |].
      apply lt_0_INR. simpl. lia. }
  reflexivity.
Qed.

(** C7. The two-tailed p-value does not see the sign of the deviation: two
    finite samples of the same size N >= 2 and the same sample standard
    deviation, whose mean volumes deviate from the target by [+d] and by
    [-d], get the same p-value. *)
Theorem p_value_sign_symmetry (name1 name2 : string) (target_volume density d : R)
    (weights1 weights2 : list R) :
  (2 <= length weights1)%nat -> length weights1 = length weights2 ->
  0 < density ->
  let volumes1 := map (fun w => w / density) weights1 in
  let volumes2 := map (fun w => w / density) weights2 in
  Stat.sample_std volumes1 = Stat.sample_std volumes2 ->
  Stat.mean volumes1 - target_volume = d ->
  Stat.mean volumes2 - target_volume = - d ->
  exists fig1 fig2,
    VolumeV11.analyze_and_plot t_cdf name1 (Num target_volume) (Num density) (map Num weights1)
      = Ok fig1
    /\ VolumeV11.analyze_and_plot t_cdf name2 (Num target_volume) (Num density) (map Num weights2)
      = Ok fig2
    /\ VolumeV11.p_value fig1 = VolumeV11.p_value fig2.
Proof.
  intros Hn Hlen Hd volumes1 volumes2 Hs Hm1 Hm2.
  assert (L1 : length volumes1 = length weights1) by apply length_map.
  assert (L2 : length volumes2 = length weights1) by (rewrite Hlen; apply length_map).
  assert (Hv : Stat.sample_var volumes1 = Stat.sample_var volumes2).
  { apply sqrt_inj; auto using sample_var_nonneg. }
  rewrite !v11_fields. cbv zeta.
  rewrite !arr_div_Num by lra. fold volumes1 volumes2.
  rewrite (ttest_1samp_Num volumes1), (ttest_1samp_Num volumes2) by lia. cbv zeta.
  eexists. eexists. split; [reflexivity |]. split; [reflexivity |].
  cbn [VolumeV11.p_value snd].
  rewrite Hm1, Hm2, Hv, L1, L2, fabs_fdiv_opp. reflexivity.
Qed.

End Degenerate.

(* ------------------------------------------------------------------ *)
(** ** Constant samples *)






Section Validation.

Variable t_cdf : Z -> R -> R.



End Validation.

(* ================================================================== *)
(** * Relative-error space *)
(* ================================================================== *)

Lemma sum_affine a b l :
  Stat.sum (map (fun x => a * x + b) l) = a * Stat.sum l + INR (length l) * b.
Proof.
  induction l as [| x l IH].
  - simpl. lra.
  - change (Stat.sum (map (fun x => a * x + b) (x :: l)))
      with (a * x + b + Stat.sum (map (fun x => a * x + b) l)).
    change (Stat.sum (x :: l)) with (x + Stat.sum l).
    change (length (x :: l)) with (S (length l)).
    rewrite IH, S_INR. lra.
Qed.

Lemma sum_scaled k (g : R -> R) l :
  Stat.sum (map (fun x => k * g x) l) = k * Stat.sum (map g l).
Proof.
  induction l as [| x l IH].
  - simpl. lra.
  - change (Stat.sum (map (fun x => k * g x) (x :: l)))
      with (k * g x + Stat.sum (map (fun x => k * g x) l)).
    change (Stat.sum (map g (x :: l))) with (g x + Stat.sum (map g l)).
    rewrite IH. lra.
Qed.

Lemma mean_affine a b l :
  l <> [] -> Stat.mean (map (fun x => a * x + b) l) = a * Stat.mean l + b.
Proof.
  intros H. unfold Stat.mean. rewrite sum_affine, length_map.
  field. apply INR_length_neq_0; auto.
Qed.

Lemma var_affine a b l :
  l <> [] ->
  Stat.sample_var (map (fun x => a * x + b) l) = a * a * Stat.sample_var l.
Proof.
  intros H. unfold Stat.sample_var. rewrite mean_affine by auto.
  rewrite map_map, length_map.
  rewrite (map_ext _ (fun x => a * a * ((x - Stat.mean l) * (x - Stat.mean l))))
    by (intros; ring).
  rewrite (sum_scaled (a * a) (fun x => (x - Stat.mean l) * (x - Stat.mean l))).
  unfold Rdiv. ring.
Qed.

Lemma std_affine a b l :
  l <> [] ->
  Stat.sample_std (map (fun x => a * x + b) l) = Rabs a * Stat.sample_std l.
Proof.
  intros H. unfold Stat.sample_std. rewrite var_affine by auto.
  rewrite sqrt_mult_alt by (apply Rle_0_sqr).
  f_equal. apply sqrt_Rsqr_abs.
Qed.

(** The relative errors are an affine image of the volumes. *)
Lemma relative_errors_affine target density weights :
  Stat.relative_errors target density weights
  = map (fun v => 100 / target * v + - 100) (map (fun w => w / density) weights).
Proof.
  unfold Stat.relative_errors. rewrite map_map. apply map_ext.
  intros w. unfold Rdiv. ring.
Qed.

Lemma instrument_relative_errors target density weights :
  target <> 0 -> density <> 0 ->
  OverlayV5.relative_errors
    (OverlayV5.instrument_stats (Num target) (Num density) (map Num weights))
  = map Num (Stat.relative_errors target density weights).
Proof.
  intros Ht Hd. unfold OverlayV5.instrument_stats. cbv zeta.
  cbn [OverlayV5.relative_errors].
  rewrite !arr_div_Num by auto.
  unfold arr_mul, arr_sub.
  rewrite (map_map_Num _ (fun x => x * 100)) by reflexivity.
  rewrite (map_map_Num _ (fun x => x - 100)) by reflexivity.
  unfold Stat.relative_errors. rewrite !map_map. reflexivity.
Qed.

Lemma instrument_stats_finite target density weights :
  target <> 0 -> density <> 0 -> (2 <= length weights)%nat ->
  let errors := Stat.relative_errors target density weights in
  OverlayV5.instrument_stats (Num target) (Num density) (map Num weights)
  = {| OverlayV5.relative_errors := map Num errors;
       OverlayV5.mu_err := Num (Stat.mean errors);
       OverlayV5.sigma_err := Num (Stat.sample_std errors);
       OverlayV5.df := (Z.of_nat (length weights) - 1)%Z |}.
Proof.
  intros Ht Hd Hn errors.
  generalize (instrument_relative_errors target density weights Ht Hd).
  unfold OverlayV5.instrument_stats. cbv zeta. cbn [OverlayV5.relative_errors].
  intros ->. fold errors.
  assert (Hlen : length errors = length weights) by apply length_map.
  assert (Hne : errors <> []).
  { intros E. rewrite E in Hlen. simpl in Hlen. lia. }
  rewrite np_mean_Num, np_std_Num by (auto; lia).
  rewrite length_map, Hlen. reflexivity.
Qed.

Section RelativeError.

Variable t_cdf : Z -> R -> R.

(** C10. The relative-error pipeline is an affine image of the volume
    pipeline.  For N >= 2 finite weights, density > 0 and target > 0, the
    overlay's statistics are those of the series
    [(weights[i] / density) / target * 100 - 100]; its mean is the
    [relative_error] of the single-instrument script,
    [(mu - target) / target * 100], and its sample standard deviation is
    [(sigma / target) * 100], mu and sigma being the mean and the sample
    standard deviation of the volumes. *)
Theorem relative_error_homomorphism (name : string) (target density : R)
    (weights : list R) :
  (2 <= length weights)%nat -> 0 < density -> 0 < target ->
  let volumes := map (fun w => w / density) weights in
  let mu := Stat.mean volumes in
  let sigma := Stat.sample_std volumes in
  let res := OverlayV5.instrument_stats (Num target) (Num density) (map Num weights) in
  exists fig,
    VolumeV11.analyze_and_plot t_cdf name (Num target) (Num density) (map Num weights) = Ok fig
    /\ VolumeV11.mu fig = Num mu /\ VolumeV11.sigma fig = Num sigma
    /\ OverlayV5.relative_errors res = map Num (Stat.relative_errors target density weights)
    /\ OverlayV5.mu_err res = Num ((mu - target) / target * 100)
    /\ OverlayV5.mu_err res = VolumeV11.relative_error fig
    /\ OverlayV5.sigma_err res = Num (sigma / target * 100)
    /\ OverlayV5.sigma_err res = fmul (fdiv (VolumeV11.sigma fig) (Num target)) (Num 100).
Proof.
  intros Hn Hd Ht volumes mu sigma res.
  assert (Hlen : length volumes = length weights) by apply length_map.
  assert (Hne : volumes <> []).
  { intros E. rewrite E in Hlen. simpl in Hlen. lia. }
  assert (Hmu : Stat.mean (Stat.relative_errors target density weights)
                = (mu - target) / target * 100).
  { rewrite relative_errors_affine. fold volumes. rewrite mean_affine by auto.
    fold mu. field. lra. }
  assert (Hsigma : Stat.sample_std (Stat.relative_errors target density weights)
                   = sigma / target * 100).
  { rewrite relative_errors_affine. fold volumes. rewrite std_affine by auto.
    fold sigma. rewrite Rabs_pos_eq.
    - field. lra.
    - apply Rlt_le, Rdiv_lt_0_compat; lra. }
  unfold res. rewrite instrument_stats_finite by (auto; lra). cbv zeta.
  rewrite Hmu, Hsigma.
  rewrite v11_fields. cbv zeta. rewrite arr_div_Num by lra. fold volumes.
  rewrite np_mean_Num, np_std_Num by (auto; lia). fold mu sigma.
  eexists. split; [reflexivity |].
  cbn [VolumeV11.mu VolumeV11.sigma VolumeV11.relative_error
       OverlayV5.relative_errors OverlayV5.mu_err OverlayV5.sigma_err].
  rewrite fsub_Num, !fdiv_Num by lra.
  repeat split; reflexivity.
Qed.

End RelativeError.

(* ================================================================== *)
(** * The plot domain *)
(* ================================================================== *)

Lemma np_minimum_Num a b : np_minimum (Num a) (Num b) = Num (Rmin a b).
Proof.
  simpl. unfold Rltb, Rmin.
  destruct (Rlt_dec b a), (Rle_dec a b); try reflexivity; exfalso; lra.
Qed.

Lemma np_maximum_Num a b : np_maximum (Num a) (Num b) = Num (Rmax a b).
Proof.
  simpl. unfold Rltb, Rmax.
  destruct (Rlt_dec a b), (Rle_dec a b); try reflexivity; try (exfalso; lra).
  f_equal. lra.
Qed.

Lemma fold_minimum_Num l x :
  fold_left np_minimum (map Num l) (Num x) = Num (fold_left Rmin l x).
Proof.
  revert x. induction l as [| y l IH]; intros x; [reflexivity |].
  cbn [map fold_left]. rewrite np_minimum_Num. apply IH.
Qed.

Lemma fold_maximum_Num l x :
  fold_left np_maximum (map Num l) (Num x) = Num (fold_left Rmax l x).
Proof.
  revert x. induction l as [| y l IH]; intros x; [reflexivity |].
  cbn [map fold_left]. rewrite np_maximum_Num. apply IH.
Qed.

Lemma py_max_Num l x : py_max (Num x) (map Num l) = Num (fold_left Rmax l x).
Proof.
  unfold py_max. revert x. induction l as [| y l IH]; intros x; [reflexivity |].
  cbn [map fold_left].
  replace (if fgt (Num y) (Num x) then Num y else Num x) with (Num (Rmax x y)); [apply IH |].
  unfold fgt. simpl. unfold Rltb, Rmax.
  destruct (Rlt_dec x y), (Rle_dec x y); try reflexivity; try (exfalso; lra).
  f_equal. lra.
Qed.

Lemma fold_Rmin_is_min l x : Stat.is_min (fold_left Rmin l x) (x :: l).
Proof.
  revert x. induction l as [| y l IH]; intros x.
  - split; [simpl; auto |]. intros z [<- | []]. simpl. lra.
  - simpl fold_left. destruct (IH (Rmin x y)) as [Hin Hle]. split.
    + destruct Hin as [E | Hin]; [| simpl; auto].
      rewrite <- E. apply Rmin_case; simpl; auto.
    + intros z Hz.
      assert (H0 : fold_left Rmin l (Rmin x y) <= Rmin x y) by (apply Hle; simpl; auto).
      destruct Hz as [<- | [<- | Hz]].
      * generalize (Rmin_l x y). lra.
      * generalize (Rmin_r x y). lra.
      * apply Hle. simpl. auto.
Qed.

Lemma fold_Rmax_is_max l x : Stat.is_max (fold_left Rmax l x) (x :: l).
Proof.
  revert x. induction l as [| y l IH]; intros x.
  - split; [simpl; auto |]. intros z [<- | []]. simpl. lra.
  - simpl fold_left. destruct (IH (Rmax x y)) as [Hin Hle]. split.
    + destruct Hin as [E | Hin]; [| simpl; auto].
      rewrite <- E. apply Rmax_case; simpl; auto.
    + intros z Hz.
      assert (H0 : Rmax x y <= fold_left Rmax l (Rmax x y)) by (apply Hle; simpl; auto).
      destruct Hz as [<- | [<- | Hz]].
      * generalize (Rmax_l x y). lra.
      * generalize (Rmax_r x y). lra.
      * apply Hle. simpl. auto.
Qed.

Lemma sum_ge l m : (forall x, In x l -> m <= x) -> INR (length l) * m <= Stat.sum l.
Proof.
  induction l as [| x l IH]; intros H.
  - simpl. lra.
  - change (Stat.sum (x :: l)) with (x + Stat.sum l).
    change (length (x :: l)) with (S (length l)). rewrite S_INR.
    assert (m <= x) by (apply H; simpl; auto).
    assert (INR (length l) * m <= Stat.sum l) by (apply IH; intros; apply H; simpl; auto).
    lra.
Qed.

Lemma sum_le l m : (forall x, In x l -> x <= m) -> Stat.sum l <= INR (length l) * m.
Proof.
  induction l as [| x l IH]; intros H.
  - simpl. lra.
  - change (Stat.sum (x :: l)) with (x + Stat.sum l).
    change (length (x :: l)) with (S (length l)). rewrite S_INR.
    assert (x <= m) by (apply H; simpl; auto).
    assert (Stat.sum l <= INR (length l) * m) by (apply IH; intros; apply H; simpl; auto).
    lra.
Qed.

(** The mean lies between any two bounds of the sample. *)
Lemma mean_ge l m : l <> [] -> (forall x, In x l -> m <= x) -> m <= Stat.mean l.
Proof.
  intros Hne H. unfold Stat.mean.
  assert (Hn : 0 < INR (length l)).
  { destruct l; [congruence |]. apply lt_0_INR. simpl. lia. }
  apply Rmult_le_reg_r with (INR (length l)); auto.
  unfold Rdiv. rewrite Rmult_assoc, Rinv_l, Rmult_1_r by lra.
  rewrite Rmult_comm. apply sum_ge; auto.
Qed.

Lemma mean_le l m : l <> [] -> (forall x, In x l -> x <= m) -> Stat.mean l <= m.
Proof.
  intros Hne H. unfold Stat.mean.
  assert (Hn : 0 < INR (length l)).
  { destruct l; [congruence |]. apply lt_0_INR. simpl. lia. }
  apply Rmult_le_reg_r with (INR (length l)); auto.
  unfold Rdiv. rewrite Rmult_assoc, Rinv_l, Rmult_1_r by lra.
  rewrite (Rmult_comm m). apply sum_le; auto.
Qed.

Lemma floor10_le x : Stat.floor10 x <= x.
Proof.
  unfold Stat.floor10. generalize (Zfloor_bound (x * 10)). lra.
Qed.

Lemma ceil10_ge x : x <= Stat.ceil10 x.
Proof.
  unfold Stat.ceil10. generalize (Zceil_bound (x * 10)). lra.
Qed.

(* ------------------------------------------------------------------ *)
(** ** The dictionary of results *)

Lemma dict_set_fresh {V : Type} (d : OverlayV5.dict V) k v :
  ~ In k (map fst d) -> OverlayV5.dict_set d k v = d ++ [(k, v)].
Proof.
  induction d as [| [k' v'] d IH]; intros H; [reflexivity |].
  simpl in *. destruct (String.eqb k' k) eqn:E.
  - apply String.eqb_eq in E. tauto.
  - rewrite IH by tauto. reflexivity.
Qed.

Lemma collect_from (group : list instrument) results all_relative_errors :
  NoDup (map fst results ++ map i_name group) ->
  fold_left
    (fun '(results, all_relative_errors) '(name, target, density, weights) =>
       let res := OverlayV5.instrument_stats target density weights in
       (OverlayV5.dict_set results name res,
        all_relative_errors ++ OverlayV5.relative_errors res))
    (map experiment_of group) (results, all_relative_errors)
  = (results ++ map (fun i => (i_name i, stats_of i)) group,
     all_relative_errors ++ flat_map (fun i => OverlayV5.relative_errors (stats_of i)) group).
Proof.
  revert results all_relative_errors.
  induction group as [| i group IH]; intros results all_relative_errors Hnd.
  - simpl. rewrite !app_nil_r. reflexivity.
  - simpl map. simpl fold_left. cbv zeta.
    rewrite dict_set_fresh.
    2:{ intros Hin. apply NoDup_remove_2 in Hnd. apply Hnd. apply in_or_app. auto. }
    fold (stats_of i). rewrite IH.
    + simpl flat_map. rewrite <- !app_assoc. reflexivity.
    + rewrite map_app. simpl. rewrite <- app_assoc. exact Hnd.
Qed.

Lemma collect_group (group : list instrument) :
  NoDup (map i_name group) ->
  OverlayV5.collect (map experiment_of group)
  = (map (fun i => (i_name i, stats_of i)) group,
     flat_map (fun i => OverlayV5.relative_errors (stats_of i)) group).
Proof.
  intros H. unfold OverlayV5.collect. rewrite collect_from; auto.
Qed.

Lemma stats_of_valid i :
  valid i ->
  stats_of i
  = {| OverlayV5.relative_errors := map Num (errors_of i);
       OverlayV5.mu_err := Num (Stat.mean (errors_of i));
       OverlayV5.sigma_err := Num (Stat.sample_std (errors_of i));
       OverlayV5.df := (Z.of_nat (length (i_weights i)) - 1)%Z |}.
Proof.
  intros [Hn [Ht Hd]]. unfold stats_of, errors_of.
  apply instrument_stats_finite; auto; lra.
Qed.

Lemma all_errors_Num group :
  Forall valid group ->
  flat_map (fun i => OverlayV5.relative_errors (stats_of i)) group
  = map Num (all_errors group).
Proof.
  induction 1 as [| i group Hi _ IH]; [reflexivity |].
  change (all_errors (i :: group)) with (errors_of i ++ all_errors group).
  cbn [flat_map]. rewrite map_app, IH, stats_of_valid by auto. reflexivity.
Qed.

Lemma sigmas_Num group :
  Forall valid group ->
  map (fun kv => OverlayV5.sigma_err (snd kv)) (map (fun i => (i_name i, stats_of i)) group)
  = map Num (map (fun i => Stat.sample_std (errors_of i)) group).
Proof.
  induction 1 as [| i group Hi _ IH]; [reflexivity |].
  cbn [map snd]. rewrite IH, stats_of_valid by auto. reflexivity.
Qed.

Lemma errors_of_length i : length (errors_of i) = length (i_weights i).
Proof. apply length_map. Qed.

Lemma all_errors_nonempty group :
  group <> [] -> Forall valid group -> all_errors group <> [].
Proof.
  intros Hne Hv. destruct group as [| i group]; [congruence |].
  inversion Hv as [| ? ? [Hn _] _]; subst.
  unfold all_errors. simpl. intros E. apply app_eq_nil in E. destruct E as [E _].
  generalize (errors_of_length i). rewrite E. simpl. lia.
Qed.

Lemma x_range_finite group :
  group <> [] -> Forall valid group ->
  exists m M S,
    Stat.is_min m (all_errors group) /\ Stat.is_max M (all_errors group)
    /\ Stat.is_max S (map (fun i => Stat.sample_std (errors_of i)) group)
    /\ OverlayV5.x_range (map (fun i => (i_name i, stats_of i)) group)
         (map Num (all_errors group))
       = Ok (Num (Stat.floor10 (m - 4 * S)), Num (Stat.ceil10 (M + 4 * S))).
Proof.
  intros Hne Hv. generalize (all_errors_nonempty group Hne Hv). intros Hall.
  unfold OverlayV5.x_range. rewrite sigmas_Num by auto.
  destruct (all_errors group) as [| x l]; [congruence |].
  destruct group as [| i group]; [congruence |].
  exists (fold_left Rmin l x), (fold_left Rmax l x).
  exists (fold_left Rmax (map (fun i => Stat.sample_std (errors_of i)) group)
            (Stat.sample_std (errors_of i))).
  split; [apply fold_Rmin_is_min |]. split; [apply fold_Rmax_is_max |].
  split; [apply fold_Rmax_is_max |].
  simpl map. unfold np_min, np_max, bind.
  rewrite fold_minimum_Num, fold_maximum_Num, py_max_Num.
  simpl fmul. unfold fsub. simpl fneg. simpl fadd. simpl ffloor. simpl fceil.
  rewrite !fdiv_Num by lra.
  unfold Stat.floor10, Stat.ceil10. unfold Rminus. reflexivity.
Qed.

Section Domain.

Variable t_cdf : Z -> R -> R.

(** C3. The plot domain.  Single-instrument mode (both scripts), for a
    valid instrument with mean volume mu and sample standard deviation
    sigma: [x_min = mu - 4 sigma], [x_max = mu + 4 sigma], and
    [x_max - x_min = 8 sigma].  Group mode, for a non-empty group of valid
    instruments with distinct names: the overlay is produced, with
    [x_min = floor10 (m - 4 S)] and [x_max = ceil10 (M + 4 S)], where [m]
    and [M] are the smallest and the largest of all the relative errors of
    the group and [S] is the largest sample standard deviation among its
    instruments; and the band [error - 4 sigma, error + 4 sigma] of every
    instrument of the group lies within [x_min, x_max]. *)
Theorem domain_derivation (single : instrument) (group_name output_dir : string)
    (group : list instrument) :
  valid single ->
  group <> [] -> Forall valid group -> NoDup (map i_name group) ->
  (exists fig11 fig2,
      VolumeV11.analyze_and_plot t_cdf (i_name single) (Num (i_target single))
        (Num (i_density single)) (map Num (i_weights single)) = Ok fig11
      /\ KdeV2.analyze_and_plot t_cdf (i_name single) (Num (i_target single))
           (Num (i_density single)) (map Num (i_weights single)) = Ok fig2
      /\ let mu := Stat.mean (volumes_of single) in
         let sigma := Stat.sample_std (volumes_of single) in
         VolumeV11.x_min fig11 = Num (mu - 4 * sigma)
         /\ VolumeV11.x_max fig11 = Num (mu + 4 * sigma)
         /\ fsub (VolumeV11.x_max fig11) (VolumeV11.x_min fig11) = Num (8 * sigma)
         /\ KdeV2.x_min fig2 = Num (mu - 4 * sigma)
         /\ KdeV2.x_max fig2 = Num (mu + 4 * sigma)
         /\ fsub (KdeV2.x_max fig2) (KdeV2.x_min fig2) = Num (8 * sigma))
  /\ (exists figs m M S,
      OverlayV5.generate_overlay_plots group_name (map experiment_of group) output_dir
        = Ok figs
      /\ OverlayV5.results figs = map (fun i => (i_name i, stats_of i)) group
      /\ Stat.is_min m (all_errors group)
      /\ Stat.is_max M (all_errors group)
      /\ Stat.is_max S (map (fun i => Stat.sample_std (errors_of i)) group)
      /\ OverlayV5.x_min figs = Num (Stat.floor10 (m - 4 * S))
      /\ OverlayV5.x_max figs = Num (Stat.ceil10 (M + 4 * S))
      /\ forall i, In i group ->
           let mu := Stat.mean (errors_of i) in
           let sigma := Stat.sample_std (errors_of i) in
           OverlayV5.mu_err (stats_of i) = Num mu
           /\ OverlayV5.sigma_err (stats_of i) = Num sigma
           /\ Stat.floor10 (m - 4 * S) <= mu - 4 * sigma
           /\ mu + 4 * sigma <= Stat.ceil10 (M + 4 * S)).
Proof.
  intros [Hn [Ht Hd]] Hne Hv Hnd. split.
  - rewrite v11_fields, v2_fields. cbv zeta.
    rewrite arr_div_Num by lra. fold (volumes_of single).
    assert (Hlen : length (volumes_of single) = length (i_weights single)) by apply length_map.
    rewrite np_mean_Num, np_std_Num
      by (try lia; intros E; rewrite E in Hlen; simpl in Hlen; lia).
    eexists. eexists. split; [reflexivity |]. split; [reflexivity |].
    cbn [VolumeV11.x_min VolumeV11.x_max KdeV2.x_min KdeV2.x_max].
    simpl fmul. unfold fsub. simpl.
    repeat split; f_equal; lra.
  - destruct (x_range_finite group Hne Hv) as [m [M [S [Hm [HM [HS Hrange]]]]]].
    unfold OverlayV5.generate_overlay_plots.
    rewrite collect_group, all_errors_Num, Hrange by auto.
    unfold bind. eexists. exists m, M, S.
    split; [reflexivity |].
    cbn [OverlayV5.results OverlayV5.x_min OverlayV5.x_max].
    do 6 (split; [first [reflexivity | assumption] |]).
    intros i Hi.
    set (mu := Stat.mean (errors_of i)). set (sigma := Stat.sample_std (errors_of i)).
    assert (Hvi : valid i) by (rewrite Forall_forall in Hv; auto).
    rewrite stats_of_valid by auto. cbn [OverlayV5.mu_err OverlayV5.sigma_err].
    split; [reflexivity |]. split; [reflexivity |].
    assert (Hnei : errors_of i <> []).
    { intros E. generalize (errors_of_length i). rewrite E. destruct Hvi as [Hni _].
      simpl. lia. }
    assert (Hsub : forall x, In x (errors_of i) -> In x (all_errors group)).
    { intros x Hx. unfold all_errors. apply in_flat_map. exists i. auto. }
    assert (Hmu1 : m <= mu).
    { apply mean_ge; auto. intros x Hx. apply Hm. auto. }
    assert (Hmu2 : mu <= M).
    { apply mean_le; auto. intros x Hx. apply HM. auto. }
    assert (Hs : sigma <= S).
    { apply HS. apply in_map_iff. exists i. auto. }
    generalize (floor10_le (m - 4 * S)) (ceil10_ge (M + 4 * S)). lra.
Qed.

End Domain.

(* ================================================================== *)
(** * The trimmed mean *)
(* ================================================================== *)

(** [int(1/6 * nobs)] is the quotient of [nobs] by 6. *)
Lemma lowercut_sixth n : Z.to_nat (Zfloor (1 / 6 * INR n)) = (n / 6)%nat.
Proof.
  assert (E : Zfloor (1 / 6 * INR n) = Z.of_nat (n / 6)).
  { apply Zfloor_eq. rewrite <- INR_IZR_INZ.
    generalize (Nat.div_mod_eq n 6) (Nat.mod_upper_bound n 6). intros Hdiv Hmod.
    assert (Hn : INR n = 6 * INR (n / 6) + INR (n mod 6)).
    { rewrite Hdiv at 1. rewrite plus_INR, mult_INR. simpl. lra. }
    assert (Hr : 0 <= INR (n mod 6) <= 5).
    { split; [apply pos_INR |]. replace 5 with (INR 5) by (simpl; lra).
      apply le_INR. lia. }
    rewrite Hn. lra. }
  rewrite E. apply Nat2Z.id.
Qed.

Lemma insert_sorted_Num x l :
  insert_sorted (Num x) (map Num l) = map Num (Stat.insert x l).
Proof.
  induction l as [| y l IH]; [reflexivity |].
  cbn [map insert_sorted Stat.insert].
  unfold sort_le, flt, Rltb.
  destruct (Rlt_dec y x), (Rle_dec x y); cbn [negb map]; try (exfalso; lra);
    rewrite ?IH; reflexivity.
Qed.

Lemma np_sort_Num l : np_sort (map Num l) = map Num (Stat.sort l).
Proof.
  induction l as [| x l IH]; [reflexivity |].
  unfold np_sort, Stat.sort in *. cbn [map fold_right].
  rewrite IH. apply insert_sorted_Num.
Qed.

Lemma insert_permutation x l : Permutation (x :: l) (Stat.insert x l).
Proof.
  induction l as [| y l IH]; [reflexivity |].
  cbn [Stat.insert]. destruct (Rle_dec x y); [reflexivity |].
  rewrite perm_swap. apply perm_skip. exact IH.
Qed.

Lemma sort_permutation l : Permutation l (Stat.sort l).
Proof.
  induction l as [| x l IH]; [reflexivity |].
  change (Stat.sort (x :: l)) with (Stat.insert x (Stat.sort l)).
  rewrite <- insert_permutation. apply perm_skip. exact IH.
Qed.

Lemma insert_sorted_Rle x l : Sorted Rle l -> Sorted Rle (Stat.insert x l).
Proof.
  induction 1 as [| y l Hs IH Hhd]; cbn [Stat.insert].
  - constructor; constructor.
  - destruct (Rle_dec x y) as [Hxy | Hxy].
    + constructor; [constructor; assumption | constructor; assumption].
    + constructor; [assumption |].
      destruct l as [| z l]; cbn [Stat.insert].
      * constructor. lra.
      * destruct (Rle_dec x z); constructor; [lra |].
        inversion Hhd; assumption.
Qed.

Lemma sort_sorted l : Sorted Rle (Stat.sort l).
Proof.
  induction l as [| x l IH]; [constructor |].
  change (Stat.sort (x :: l)) with (Stat.insert x (Stat.sort l)).
  apply insert_sorted_Rle. exact IH.
Qed.

Lemma sort_length l : length (Stat.sort l) = length l.
Proof. symmetry. apply Permutation_length, sort_permutation. Qed.

(** The proportion [1/6] is never too big: [trim_mean] returns. *)
Lemma trim_mean_sixth_returns (a : ndarray) :
  exists m, SciPy.trim_mean a (1 / 6) = Ok m.
Proof.
  unfold SciPy.trim_mean. destruct a as [| x a]; [eauto |].
  rewrite lowercut_sixth.
  set (n := length (x :: a)).
  replace (n - n / 6 <? n / 6)%nat with false; [eauto |].
  symmetry. apply Nat.ltb_ge.
  generalize (Nat.div_mod_eq n 6). lia.
Qed.

Lemma trim_mean_sixth_finite l :
  l <> [] -> SciPy.trim_mean (map Num l) (1 / 6) = Ok (Num (Stat.trimmed_mean l)).
Proof.
  intros Hne. unfold SciPy.trim_mean.
  destruct (map Num l) eqn:E; [destruct l; [congruence | discriminate] |].
  rewrite <- E. clear E. rewrite lowercut_sixth, length_map.
  set (n := length l). set (k := (n / 6)%nat).
  assert (Hk : (6 * k <= n)%nat).
  { unfold k. generalize (Nat.div_mod_eq n 6). lia. }
  assert (Hn : (1 <= n)%nat).
  { unfold n. destruct l; [congruence |]. simpl. lia. }
  replace (n - k <? k)%nat with false by (symmetry; apply Nat.ltb_ge; lia).
  f_equal. rewrite np_sort_Num. unfold slice.
  rewrite skipn_map, firstn_map. rewrite np_mean_Num.
  - unfold Stat.trimmed_mean. fold n. fold k.
    replace (n - k - k)%nat with (n - 2 * k)%nat by lia. reflexivity.
  - intros E. apply (f_equal (@length R)) in E.
    rewrite length_firstn, length_skipn, sort_length in E. fold n in E. simpl in E. lia.
Qed.

Section Trimmed.

Variable t_cdf : Z -> R -> R.

(** C9. The trimmed mean of the KDE script.  For N >= 2 finite weights and
    a density > 0 the figure carries the trimmed mean: the volumes put in
    increasing order split into [N / 6] lowest values, the kept values and
    [N / 6] highest values, and the trimmed mean is the mean of the kept
    ones.  And for every input the trimmed mean is guarded: the figure is
    produced, its [trimmed_mean] is the value [trim_mean] returns, or [None]
    when [trim_mean] raises, and the other statistics are those of the
    script that computes no trimmed mean. *)
Theorem trimmed_mean_or_unavailable (name : string) (target_volume : float)
    (density : R) (weights : list R) :
  (2 <= length weights)%nat -> 0 < density ->
  let volumes := map (fun w => w / density) weights in
  let k := (length weights / 6)%nat in
  (exists fig low kept high,
      KdeV2.analyze_and_plot t_cdf name target_volume (Num density) (map Num weights) = Ok fig
      /\ Permutation volumes (low ++ kept ++ high)
      /\ Sorted Rle (low ++ kept ++ high)
      /\ length low = k /\ length high = k
      /\ KdeV2.trimmed_mean fig = Some (Num (Stat.mean kept)))
  /\ (forall name' target' density' raw_weights',
      exists fig11 fig2,
        VolumeV11.analyze_and_plot t_cdf name' target' density' raw_weights' = Ok fig11
        /\ KdeV2.analyze_and_plot t_cdf name' target' density' raw_weights' = Ok fig2
        /\ KdeV2.trimmed_mean fig2
           = match SciPy.trim_mean (KdeV2.calculated_volumes fig2) (1 / 6) with
             | Ok m => Some m
             | Raise _ => None
             end
        /\ KdeV2.mu fig2 = VolumeV11.mu fig11
        /\ KdeV2.sigma fig2 = VolumeV11.sigma fig11
        /\ KdeV2.relative_error fig2 = VolumeV11.relative_error fig11
        /\ KdeV2.t_statistic fig2 = VolumeV11.t_statistic fig11
        /\ KdeV2.p_value fig2 = VolumeV11.p_value fig11).
Proof.
  intros Hn Hd volumes k. split.
  - assert (Hlen : length volumes = length weights) by apply length_map.
    assert (Hne : volumes <> []).
    { intros E. rewrite E in Hlen. simpl in Hlen. lia. }
    assert (Hk : (6 * k <= length weights)%nat).
    { unfold k. generalize (Nat.div_mod_eq (length weights) 6). lia. }
    set (s := Stat.sort volumes).
    assert (Hs : length s = length weights) by (unfold s; rewrite sort_length; auto).
    rewrite v2_fields. cbv zeta. rewrite arr_div_Num by lra. fold volumes.
    rewrite trim_mean_sixth_finite by auto.
    eexists. exists (firstn k s), (firstn (length weights - 2 * k) (skipn k s)),
      (skipn (length weights - 2 * k) (skipn k s)).
    split; [reflexivity |]. cbn [KdeV2.trimmed_mean try_except].
    rewrite !firstn_skipn.
    split; [apply sort_permutation |]. split; [apply sort_sorted |].
    split; [rewrite length_firstn; lia |].
    split; [rewrite !length_skipn; lia |].
    unfold Stat.trimmed_mean. rewrite Hlen. reflexivity.
  - intros name' target' density' raw_weights'.
    rewrite v11_fields, v2_fields. cbv zeta.
    eexists. eexists. split; [reflexivity |]. split; [reflexivity |].
    cbn [KdeV2.trimmed_mean KdeV2.calculated_volumes KdeV2.mu KdeV2.sigma
         KdeV2.relative_error KdeV2.t_statistic KdeV2.p_value
         VolumeV11.mu VolumeV11.sigma VolumeV11.relative_error
         VolumeV11.t_statistic VolumeV11.p_value].
    split; [| repeat split; reflexivity].
    destruct (SciPy.trim_mean _ _); reflexivity.
Qed.

End Trimmed.

(* ================================================================== *)
(** * The t density and its mode *)
(* ================================================================== *)

Lemma gamma_half_step k :
  SciPy.gamma_half (S (S (S k))) = INR (S k) / 2 * SciPy.gamma_half (S k).
Proof. reflexivity. Qed.

Lemma gamma_half_pos k : 0 < SciPy.gamma_half (S k).
Proof.
  assert (H : 0 < SciPy.gamma_half (S k) /\ 0 < SciPy.gamma_half (S (S k))).
  { induction k as [| k [IH1 IH2]].
    - split.
      + simpl. apply sqrt_lt_R0, PI_RGT_0.
      + simpl. lra.
    - split; [exact IH2 |].
      rewrite gamma_half_step. apply Rmult_lt_0_compat; [| exact IH1].
      apply Rdiv_lt_0_compat; [apply lt_0_INR; lia | lra]. }
  exact (proj1 H).
Qed.

(** The constant in front of the standard t density is positive. *)
Lemma t_pdf_constant_pos df :
  (0 < df)%Z ->
  0 < SciPy.gamma_half (Z.to_nat (df + 1))
      / (sqrt (IZR df * PI) * SciPy.gamma_half (Z.to_nat df)).
Proof.
  intros H.
  destruct (Z.to_nat df) as [| n] eqn:E1; [lia |].
  destruct (Z.to_nat (df + 1)) as [| m] eqn:E2; [lia |].
  apply Rdiv_lt_0_compat; [apply gamma_half_pos |].
  apply Rmult_lt_0_compat; [| apply gamma_half_pos].
  apply sqrt_lt_R0. apply Rmult_lt_0_compat; [apply IZR_lt; auto | apply PI_RGT_0].
Qed.

Lemma Rpower_1_l b : Rpower 1 b = 1.
Proof. unfold Rpower. rewrite ln_1, Rmult_0_r. apply exp_0. Qed.

(** A power with a negative exponent decreases above 1. *)
Lemma Rpower_neg_lt_1 a b : 1 < a -> b < 0 -> Rpower a b < 1.
Proof.
  intros Ha Hb. unfold Rpower. rewrite <- exp_0. apply exp_increasing.
  assert (0 < ln a) by (rewrite <- ln_1; apply ln_increasing; lra).
  nra.
Qed.

Lemma t_pdf_std_0 df :
  SciPy.t_pdf_std df 0
  = SciPy.gamma_half (Z.to_nat (df + 1))
    / (sqrt (IZR df * PI) * SciPy.gamma_half (Z.to_nat df)).
Proof.
  unfold SciPy.t_pdf_std. cbv zeta.
  replace (1 + 0 * 0 / IZR df) with 1 by (unfold Rdiv; ring).
  rewrite Rpower_1_l. ring.
Qed.

(** The standard t density has its only maximum at 0. *)
Lemma t_pdf_std_mode df y :
  (0 < df)%Z -> y <> 0 -> SciPy.t_pdf_std df y < SciPy.t_pdf_std df 0.
Proof.
  intros Hdf Hy. rewrite t_pdf_std_0. unfold SciPy.t_pdf_std. cbv zeta.
  generalize (t_pdf_constant_pos df Hdf). intros Hc.
  assert (Hnu : 0 < IZR df) by (apply IZR_lt; auto).
  assert (Hp : Rpower (1 + y * y / IZR df) (- ((IZR df + 1) / 2)) < 1).
  { apply Rpower_neg_lt_1; [| lra].
    assert (0 < y * y) by nra.
    assert (0 < y * y / IZR df) by (apply Rdiv_lt_0_compat; auto).
    lra. }
  nra.
Qed.

Lemma t_pdf_std_pos df y : (0 < df)%Z -> 0 < SciPy.t_pdf_std df y.
Proof.
  intros Hdf. unfold SciPy.t_pdf_std. cbv zeta.
  apply Rmult_lt_0_compat; [apply t_pdf_constant_pos; auto |].
  unfold Rpower. apply exp_pos.
Qed.

(** [scipy.stats.t.pdf] at finite arguments, the scale being positive. *)
Lemma t_pdf_finite x df mu sigma :
  (0 < df)%Z -> 0 < sigma ->
  SciPy.t_pdf (Num x) df (Num mu) (Num sigma) = Num (Stat.t_density df mu sigma x).
Proof.
  intros Hdf Hs. unfold SciPy.t_pdf.
  replace (0 <? df)%Z with true by (symmetry; apply Z.ltb_lt; auto).
  cbn [andb flt]. rewrite Rltb_true by auto.
  rewrite fsub_Num, !fdiv_Num by lra. reflexivity.
Qed.

(** The located and scaled t density has its only maximum at [mu]. *)
Lemma t_density_mode df mu sigma x :
  (0 < df)%Z -> 0 < sigma -> x <> mu ->
  Stat.t_density df mu sigma x < Stat.t_density df mu sigma mu.
Proof.
  intros Hdf Hs Hx. unfold Stat.t_density.
  replace ((mu - mu) / sigma) with 0 by (unfold Rdiv; ring).
  apply Rmult_lt_compat_r; [apply Rinv_0_lt_compat; auto |].
  apply t_pdf_std_mode; auto.
  intros E. apply Hx.
  assert (x - mu = 0); [| lra].
  apply Rmult_eq_reg_r with (/ sigma); [| apply Rinv_neq_0_compat; lra].
  rewrite Rmult_0_l. exact E.
Qed.

(* ================================================================== *)
(** * The largest value of a curve *)
(* ================================================================== *)





(* ------------------------------------------------------------------ *)
(** ** The evaluation grid *)

Lemma linspace_Num a b num :
  (2 <= num)%nat -> linspace (Num a) (Num b) num = map Num (Stat.grid a b num).
Proof.
  intros Hn. unfold linspace, Stat.grid. cbv zeta.
  destruct num as [| m]; [lia |].
  replace (S m - 1)%nat with m by lia.
  assert (Hd : INR m <> 0) by (apply not_0_INR; lia).
  rewrite fsub_Num, fdiv_Num by auto.
  rewrite seq_S, !map_app. cbn [map Nat.add].
  f_equal.
  - rewrite map_map. apply map_ext. intros i. simpl. f_equal. lra.
  - f_equal. f_equal. field. auto.
Qed.

Lemma grid_length a b num : length (Stat.grid a b num) = num.
Proof. unfold Stat.grid. rewrite length_map, length_seq. reflexivity. Qed.

Lemma grid_nth a b num j :
  (j < num)%nat ->
  nth j (Stat.grid a b num) 0 = a + INR j * ((b - a) / INR (num - 1)).
Proof.
  intros Hj. unfold Stat.grid.
  set (f := fun i => a + INR i * ((b - a) / INR (num - 1))).
  rewrite (nth_indep _ 0 (f 0%nat)) by (rewrite length_map, length_seq; auto).
  rewrite (map_nth f), seq_nth by auto. reflexivity.
Qed.

(* ================================================================== *)
(** * The kernel density estimate *)
(* ================================================================== *)


(** Scott's factor is positive. *)
Lemma scott_factor_pos n : 0 < Rpower (INR n) (- (1 / 5)) * Rpower (INR n) (- (1 / 5)).
Proof.
  assert (H : 0 < Rpower (INR n) (- (1 / 5))) by (unfold Rpower; apply exp_pos).
  nra.
Qed.



Lemma kde_evaluate_finite l c p :
  l <> [] -> 0 < c ->
  SciPy.kde_evaluate {| SciPy.dataset := map Num l; SciPy.covariance := c |} (Num p)
  = Num (Stat.kde_density l c p).
Proof.
  intros Hne Hc. unfold SciPy.kde_evaluate. cbv zeta. cbn [SciPy.dataset SciPy.covariance].
  rewrite (map_map_Num _ (fun xi => exp (- ((xi - p) * (xi - p) / (2 * c))))).
  2:{ intros x. rewrite fsub_Num. cbn [fmul]. rewrite fdiv_Num by lra. reflexivity. }
  unfold count. rewrite np_sum_Num, !length_map.
  rewrite fdiv_Num by (apply INR_length_neq_0; auto).
  rewrite fdiv_Num; [reflexivity |].
  assert (0 < sqrt (2 * PI * c)); [| lra].
  apply sqrt_lt_R0. generalize PI_RGT_0. nra.
Qed.

Lemma sum_exp_pos (g : R -> R) l : l <> [] -> 0 < Stat.sum (map (fun x => exp (g x)) l).
Proof.
  intros Hne. destruct l as [| x l]; [congruence |]. clear Hne.
  revert x. induction l as [| y l IH]; intros x.
  - simpl. generalize (exp_pos (g x)). lra.
  - change (Stat.sum (map (fun x => exp (g x)) (x :: y :: l)))
      with (exp (g x) + Stat.sum (map (fun x => exp (g x)) (y :: l))).
    generalize (exp_pos (g x)) (IH y). lra.
Qed.

(** A kernel density estimate is positive everywhere. *)
Lemma kde_density_pos l c p : l <> [] -> 0 < c -> 0 < Stat.kde_density l c p.
Proof.
  intros Hne Hc. unfold Stat.kde_density.
  apply Rdiv_lt_0_compat; [apply Rdiv_lt_0_compat |].
  - apply (sum_exp_pos (fun xi => - ((xi - p) * (xi - p) / (2 * c)))); auto.
  - destruct l; [congruence |]. apply lt_0_INR. simpl. lia.
  - apply sqrt_lt_R0. generalize PI_RGT_0. nra.
Qed.






Lemma errors_mean i :
  valid i ->
  Stat.mean (errors_of i) = (Stat.mean (volumes_of i) - i_target i) / i_target i * 100.
Proof.
  intros [Hn [Ht Hd]]. unfold errors_of. rewrite relative_errors_affine.
  fold (volumes_of i). rewrite mean_affine.
  - field. lra.
  - intros E. apply (f_equal (@length R)) in E. unfold volumes_of in E.
    rewrite length_map in E. simpl in E. lia.
Qed.

Lemma errors_std i :
  valid i ->
  Stat.sample_std (errors_of i) = Stat.sample_std (volumes_of i) / i_target i * 100.
Proof.
  intros [Hn [Ht Hd]]. unfold errors_of. rewrite relative_errors_affine.
  fold (volumes_of i). rewrite std_affine.
  - rewrite Rabs_pos_eq; [field; lra |]. apply Rlt_le, Rdiv_lt_0_compat; lra.
  - intros E. apply (f_equal (@length R)) in E. unfold volumes_of in E.
    rewrite length_map in E. simpl in E. lia.
Qed.

Lemma errors_std_pos i :
  valid i -> 0 < Stat.sample_std (volumes_of i) -> 0 < Stat.sample_std (errors_of i).
Proof.
  intros Hv Hs. rewrite errors_std by auto. destruct Hv as [_ [Ht _]].
  apply Rmult_lt_0_compat; [apply Rdiv_lt_0_compat; auto | lra].
Qed.


(** The overlay of a non-empty group of valid instruments with distinct
    names. *)
Lemma generate_overlay_valid group_name output_dir group :
  group <> [] -> Forall valid group -> NoDup (map i_name group) ->
  exists m M S,
    Stat.is_min m (all_errors group) /\ Stat.is_max M (all_errors group)
    /\ Stat.is_max S (map (fun i => Stat.sample_std (errors_of i)) group)
    /\ let a := Stat.floor10 (m - 4 * S) in
       let b := Stat.ceil10 (M + 4 * S) in
       let results := map (fun i => (i_name i, stats_of i)) group in
       let x_curve := map Num (Stat.grid a b 1000) in
       OverlayV5.generate_overlay_plots group_name (map experiment_of group) output_dir
       = Ok {| OverlayV5.results := results;
               OverlayV5.x_min := Num a;
               OverlayV5.x_max := Num b;
               OverlayV5.x_curve := x_curve;
               OverlayV5.figure_t :=
                 map (fun '(name, res) => (name, OverlayV5.plot_t x_curve res)) results;
               OverlayV5.figure_kde :=
                 map (fun '(name, res) => (name, OverlayV5.plot_kde x_curve res)) results |}.
Proof.
  intros Hne Hv Hnd.
  destruct (x_range_finite group Hne Hv) as [m [M [S [Hm [HM [HS Hrange]]]]]].
  exists m, M, S. repeat (split; [assumption |]). cbv zeta.
  unfold OverlayV5.generate_overlay_plots.
  rewrite collect_group, all_errors_Num, Hrange by auto.
  cbn [bind]. rewrite linspace_Num by lia. reflexivity.
Qed.

Section Peaks.

Variable t_cdf : Z -> R -> R.



End Peaks.

(* ================================================================== *)
(** * Instances *)
(* ================================================================== *)

Lemma cauchy_symmetric : symmetric_cdf cauchy_cdf.
Proof.
  intros df x. unfold cauchy_cdf. rewrite atan_opp. field.
  generalize PI_RGT_0. lra.
Qed.

Lemma mean_pair a b : Stat.mean [a; b] = (a + b) / 2.
Proof. unfold Stat.mean. simpl. field. Qed.

Lemma var_pair a b : Stat.sample_var [a; b] = (a - b) * (a - b) / 2.
Proof. unfold Stat.sample_var. rewrite mean_pair. simpl. field. Qed.

Lemma std_pair_pos a b : a <> b -> 0 < Stat.sample_std [a; b].
Proof.
  intros H. unfold Stat.sample_std. rewrite var_pair. apply sqrt_lt_R0.
  assert (0 < (a - b) * (a - b)) by nra. lra.
Qed.




(** A two-item sample whose mean volume is the target. *)
Lemma t_test_formula_witness :
  exists fig11,
    VolumeV11.analyze_and_plot cauchy_cdf "pipette" (Num 2) (Num 1) [Num 1; Num 3] = Ok fig11
    /\ VolumeV11.t_statistic fig11 = Num 0
    /\ VolumeV11.p_value fig11 = Num 1.
Proof.
  assert (Hm : Stat.mean (map (fun w => w / 1) [1; 3]) = 2)
    by (cbn [map]; rewrite mean_pair; field).
  assert (Hs : 0 < Stat.sample_std (map (fun w => w / 1) [1; 3]))
    by (cbn [map]; apply std_pair_pos; lra).
  destruct (t_test_formula cauchy_cdf "pipette" 2 1 [1; 3] cauchy_symmetric
              (le_n 2) Rlt_0_1 Rlt_0_2 Hs)
    as [fig11 [fig2 [H11 [_ [_ [_ [_ [_ Hmu]]]]]]]].
  destruct (Hmu Hm) as [Ht [Hp _]].
  exists fig11. split; [exact H11 |]. split; [exact Ht | exact Hp].
Defined.

Lemma volumes_elementwise_witness :
  exists fig11,
    VolumeV11.analyze_and_plot cauchy_cdf "pipette" (Num 2) (Num 2) [Num 1; Num 3] = Ok fig11
    /\ nth 1 (VolumeV11.calculated_volumes fig11) NaN = Num (3 / 2).
Proof.
  destruct (volumes_elementwise cauchy_cdf "pipette" (Num 2) 2 [1; 3] (le_n 2) Rlt_0_2)
    as [fig11 [fig2 [H11 [_ [_ [_ Hnth]]]]]].
  exists fig11. split; [exact H11 |]. exact (Hnth 1%nat (le_n 2)).
Defined.

(** Two samples of the same spread on either side of the target 3. *)
Lemma p_value_sign_symmetry_witness :
  exists fig1 fig2,
    VolumeV11.analyze_and_plot cauchy_cdf "low" (Num 3) (Num 1) [Num 1; Num 3] = Ok fig1
    /\ VolumeV11.analyze_and_plot cauchy_cdf "high" (Num 3) (Num 1) [Num 3; Num 5] = Ok fig2
    /\ VolumeV11.p_value fig1 = VolumeV11.p_value fig2.
Proof.
  assert (Hs : Stat.sample_std (map (fun w => w / 1) [1; 3])
               = Stat.sample_std (map (fun w => w / 1) [3; 5])).
  { cbn [map]. unfold Stat.sample_std. rewrite !var_pair. f_equal. field. }
  assert (H1 : Stat.mean (map (fun w => w / 1) [1; 3]) - 3 = -1)
    by (cbn [map]; rewrite mean_pair; field).
  assert (H2 : Stat.mean (map (fun w => w / 1) [3; 5]) - 3 = - -1)
    by (cbn [map]; rewrite mean_pair; field).
  exact (p_value_sign_symmetry cauchy_cdf "low" "high" 3 1 (-1) [1; 3] [3; 5]
           (le_n 2) eq_refl Rlt_0_1 Hs H1 H2).
Defined.

Lemma pipette_valid : valid pipette.
Proof. unfold valid. simpl. repeat split; [lia | lra | lra]. Qed.

Lemma burette_valid : valid burette.
Proof. unfold valid. simpl. repeat split; [lia | lra | lra]. Qed.

Lemma pipette_spread : 0 < Stat.sample_std (volumes_of pipette).
Proof. unfold volumes_of. cbn [pipette i_weights i_density map]. apply std_pair_pos. lra. Qed.

Lemma instruments_distinct : NoDup (map i_name [pipette; burette]).
Proof.
  cbn [map pipette burette i_name]. constructor.
  - intros [H | []]. discriminate.
  - constructor; [intros [] | constructor].
Qed.

Lemma instruments_nonempty : [pipette; burette] <> [].
Proof. discriminate. Qed.


(** The overlay of two instruments. *)
Lemma domain_derivation_witness :
  exists figs,
    OverlayV5.generate_overlay_plots "group" (map experiment_of [pipette; burette]) "out"
      = Ok figs
    /\ OverlayV5.results figs
       = [("pipette"%string, stats_of pipette); ("burette"%string, stats_of burette)].
Proof.
  destruct (domain_derivation cauchy_cdf pipette "group" "out" [pipette; burette]
              pipette_valid instruments_nonempty
              (Forall_cons _ pipette_valid (Forall_cons _ burette_valid (Forall_nil _)))
              instruments_distinct)
    as [_ [figs [m [M [S [Hgen [Hres _]]]]]]].
  exists figs. split; [exact Hgen | exact Hres].
Defined.




(** Six weights: one value is dropped from each tail. *)
Lemma trimmed_mean_or_unavailable_witness :
  exists fig (low kept high : list R),
    KdeV2.analyze_and_plot cauchy_cdf "pipette" (Num 3) (Num 1)
      [Num 1; Num 2; Num 3; Num 4; Num 5; Num 6] = Ok fig
    /\ length low = 1%nat /\ length high = 1%nat
    /\ KdeV2.trimmed_mean fig = Some (Num (Stat.mean kept)).
Proof.
  destruct (trimmed_mean_or_unavailable cauchy_cdf "pipette" (Num 3) 1 [1; 2; 3; 4; 5; 6]
              (le_S _ _ (le_S _ _ (le_S _ _ (le_S _ _ (le_n 2))))) Rlt_0_1)
    as [[fig [low [kept [high [Hfig [_ [_ [Hlow [Hhigh Htrim]]]]]]]]] _].
  exists fig, low, kept, high.
  split; [exact Hfig |]. split; [exact Hlow |]. split; [exact Hhigh | exact Htrim].
Defined.

Lemma relative_error_homomorphism_witness :
  exists fig,
    VolumeV11.analyze_and_plot cauchy_cdf "pipette" (Num 2) (Num 1) [Num 1; Num 3] = Ok fig
    /\ OverlayV5.mu_err (stats_of pipette) = VolumeV11.relative_error fig
    /\ OverlayV5.sigma_err (stats_of pipette)
       = fmul (fdiv (VolumeV11.sigma fig) (Num 2)) (Num 100).
Proof.
  destruct (relative_error_homomorphism cauchy_cdf "pipette" 2 1 [1; 3]
              (le_n 2) Rlt_0_1 Rlt_0_2)
    as [fig [Hfig [_ [_ [_ [_ [Hmu [_ Hsigma]]]]]]]].
  exists fig. split; [exact Hfig |]. split; [exact Hmu | exact Hsigma].
Defined.

(* ================================================================== *)
(** * Further properties of the overlay script *)
(* ================================================================== *)

Lemma dict_get_set_same {V : Type} (d : OverlayV5.dict V) k v :
  dict_get (OverlayV5.dict_set d k v) k = Some v.
Proof.
  induction d as [| [k' v'] d IH]; cbn [OverlayV5.dict_set dict_get].
  - rewrite String.eqb_refl. reflexivity.
  - destruct (String.eqb k' k) eqn:E; cbn [dict_get]; rewrite E; auto.
Qed.

Lemma dict_get_set_other {V : Type} (d : OverlayV5.dict V) k k' v :
  k <> k' -> dict_get (OverlayV5.dict_set d k v) k' = dict_get d k'.
Proof.
  intros Hne. induction d as [| [k0 v0] d IH]; cbn [OverlayV5.dict_set dict_get].
  - apply String.eqb_neq in Hne. rewrite Hne. reflexivity.
  - destruct (String.eqb k0 k) eqn:E; cbn [dict_get].
    + apply String.eqb_eq in E. subst k0.
      apply String.eqb_neq in Hne. rewrite Hne. reflexivity.
    + rewrite IH. reflexivity.
Qed.

Lemma dict_set_present {V : Type} (d : OverlayV5.dict V) k v :
  In k (map fst d) -> map fst (OverlayV5.dict_set d k v) = map fst d.
Proof.
  induction d as [| [k' v'] d IH]; intros H; [contradiction |].
  cbn [OverlayV5.dict_set]. destruct (String.eqb k' k) eqn:E; [reflexivity |].
  cbn [map fst]. f_equal. apply IH. destruct H as [H | H]; [| exact H].
  cbn in H. subst k'. rewrite String.eqb_refl in E. discriminate.
Qed.

Lemma dict_set_keys {V : Type} (d : OverlayV5.dict V) k v :
  map fst (OverlayV5.dict_set d k v) = map fst d
  \/ (~ In k (map fst d) /\ map fst (OverlayV5.dict_set d k v) = map fst d ++ [k]).
Proof.
  destruct (in_dec string_dec k (map fst d)) as [H | H].
  - left. apply dict_set_present. exact H.
  - right. split; [exact H |]. rewrite dict_set_fresh by exact H.
    rewrite map_app. reflexivity.
Qed.

Lemma dict_set_NoDup {V : Type} (d : OverlayV5.dict V) k v :
  NoDup (map fst d) -> NoDup (map fst (OverlayV5.dict_set d k v)).
Proof.
  intros Hnd. destruct (dict_set_keys d k v) as [-> | [Hk ->]]; [exact Hnd |].
  apply (Permutation_NoDup (Permutation_cons_append (map fst d) k)).
  constructor; assumption.
Qed.

Lemma dict_set_length {V : Type} (d : OverlayV5.dict V) k v :
  (length (OverlayV5.dict_set d k v) <= S (length d))%nat.
Proof.
  rewrite <- (length_map fst (OverlayV5.dict_set d k v)), <- (length_map fst d).
  destruct (dict_set_keys d k v) as [-> | [_ ->]]; [lia |].
  rewrite length_app. cbn [length]. lia.
Qed.

Lemma dict_get_key {V : Type} (d : OverlayV5.dict V) k v :
  dict_get d k = Some v -> In k (map fst d).
Proof.
  induction d as [| [k' v'] d IH]; cbn [dict_get map fst]; [discriminate |].
  destruct (String.eqb k' k) eqn:E.
  - apply String.eqb_eq in E. left. exact E.
  - intros H. right. apply IH. exact H.
Qed.

Lemma last_named_in name (exps : list OverlayV5.experiment) :
  In name (map (fun e => fst (fst (fst e))) exps) ->
  exists e, last_named name exps = Some e.
Proof.
  induction exps as [| e exps IH]; intros H; [contradiction |].
  cbn [last_named]. destruct (last_named name exps) as [e' |] eqn:E; [eauto |].
  destruct H as [H | H].
  - cbn beta in H. rewrite H, String.eqb_refl. eauto.
  - destruct (IH H) as [e' He']. discriminate.
Qed.

Lemma collect_fold (exps : list OverlayV5.experiment) results all_relative_errors :
  let out :=
    fold_left
      (fun '(results, all_relative_errors) '(name, target, density, weights) =>
         let res := OverlayV5.instrument_stats target density weights in
         (OverlayV5.dict_set results name res,
          all_relative_errors ++ OverlayV5.relative_errors res))
      exps (results, all_relative_errors) in
  (NoDup (map fst results) -> NoDup (map fst (fst out)))
  /\ (forall name,
        dict_get (fst out) name
        = match last_named name exps with
          | Some e => Some (experiment_stats e)
          | None => dict_get results name
          end)
  /\ (length (fst out) <= length results + length exps)%nat
  /\ snd out
     = all_relative_errors
       ++ flat_map (fun e => OverlayV5.relative_errors (experiment_stats e)) exps.
Proof.
  cbv zeta. revert results all_relative_errors.
  induction exps as [| [[[name target] density] weights] exps IH];
    intros results all_relative_errors.
  - cbn [fold_left fst snd last_named flat_map length]. rewrite app_nil_r.
    repeat split; auto. lia.
  - cbn [fold_left]. cbv zeta.
    specialize (IH (OverlayV5.dict_set results name
                      (OverlayV5.instrument_stats target density weights))
                   (all_relative_errors
                    ++ OverlayV5.relative_errors
                         (OverlayV5.instrument_stats target density weights))).
    destruct IH as [I1 [I2 [I3 I4]]].
    split; [| split; [| split]].
    + intros Hnd. apply I1. apply dict_set_NoDup. exact Hnd.
    + intros name0. rewrite I2. cbn [last_named fst].
      destruct (last_named name0 exps); [reflexivity |].
      destruct (String.eqb name name0) eqn:E.
      * apply String.eqb_eq in E. subst name0. rewrite dict_get_set_same. reflexivity.
      * apply String.eqb_neq in E. rewrite dict_get_set_other by exact E. reflexivity.
    + pose proof (dict_set_length results name
                    (OverlayV5.instrument_stats target density weights)).
      cbn [length]. lia.
    + rewrite I4. cbn [flat_map]. rewrite <- app_assoc. reflexivity.
Qed.

Lemma collect_spec (exps : list OverlayV5.experiment) :
  NoDup (map fst (fst (OverlayV5.collect exps)))
  /\ (forall name,
        dict_get (fst (OverlayV5.collect exps)) name
        = option_map experiment_stats (last_named name exps))
  /\ (length (fst (OverlayV5.collect exps)) <= length exps)%nat
  /\ snd (OverlayV5.collect exps)
     = flat_map (fun e => OverlayV5.relative_errors (experiment_stats e)) exps.
Proof.
  destruct (collect_fold exps [] []) as [H1 [H2 [H3 H4]]].
  split; [apply H1; constructor |].
  split; [intros name; unfold OverlayV5.collect; rewrite H2;
          destruct (last_named name exps); reflexivity |].
  split; [exact H3 | exact H4].
Qed.

Lemma relative_errors_length target density weights :
  length (OverlayV5.relative_errors (OverlayV5.instrument_stats target density weights))
  = length weights.
Proof.
  cbn [OverlayV5.instrument_stats OverlayV5.relative_errors].
  unfold arr_sub, arr_mul, arr_div. rewrite !length_map. reflexivity.
Qed.

Lemma colours_from (keys : list string) (s : nat) name i :
  dict_get (combine keys (seq s (length keys))) name = Some i ->
  (s <= i < s + length keys)%nat /\ nth_error keys (i - s) = Some name.
Proof.
  revert s. induction keys as [| k keys IH]; intros s;
    cbn [length seq combine dict_get]; [discriminate |].
  destruct (String.eqb k name) eqn:E.
  - intros H. injection H as <-. apply String.eqb_eq in E. subst k.
    rewrite Nat.sub_diag. split; [lia | reflexivity].
  - intros H. apply IH in H. destruct H as [H1 H2]. split; [lia |].
    replace (i - s)%nat with (S (i - S s)) by lia. exact H2.
Qed.

Lemma colours_total (keys : list string) (s : nat) name :
  In name keys -> exists i, dict_get (combine keys (seq s (length keys))) name = Some i.
Proof.
  revert s. induction keys as [| k keys IH]; intros s H; [contradiction |].
  cbn [length seq combine dict_get]. destruct (String.eqb k name) eqn:E; [eauto |].
  destruct H as [H | H]; [| apply IH; exact H].
  subst k. rewrite String.eqb_refl in E. discriminate.
Qed.

(** X1. A group in which no experiment has a weight, the empty group among
    them, has no x-axis range: [numpy.min] of the empty list of relative
    errors raises [ValueError], and the default [max_sigma = 1] of an empty
    [results] is never used. *)
Theorem overlay_without_weights (group_name output_dir : string)
    (experiments_in_group : list OverlayV5.experiment) :
  Forall (fun e => snd e = []) experiments_in_group ->
  OverlayV5.generate_overlay_plots group_name experiments_in_group output_dir
  = Raise ValueError.
Proof.
  intros H. unfold OverlayV5.generate_overlay_plots.
  destruct (collect_spec experiments_in_group) as [_ [_ [_ Hall]]].
  destruct (OverlayV5.collect experiments_in_group) as [results all_relative_errors].
  cbn [snd] in Hall.
  assert (Hnil : all_relative_errors = []).
  { rewrite Hall. clear Hall. induction H as [| [[[name target] density] weights] l Hw _ IH];
      [reflexivity |].
    cbn [flat_map]. rewrite IH, app_nil_r. cbn [snd] in Hw. subst weights. reflexivity. }
  rewrite Hnil. reflexivity.
Qed.

Lemma overlay_without_weights_witness :
  OverlayV5.generate_overlay_plots "g"%string [("a"%string, Num 1, Num 1, [])] "out"%string
  = Raise ValueError.
Proof.
  apply overlay_without_weights. constructor; [reflexivity | constructor].
Defined.

(** X2. [results] is keyed by instrument name: its keys are distinct, under
    each name it holds the statistics of the last experiment of the group
    that bears the name (an earlier one is replaced), and no other name is
    a key; the relative errors of all the experiments, replaced or not,
    enter [all_relative_errors]. *)
Theorem results_keyed_by_name (experiments_in_group : list OverlayV5.experiment) :
  let results := fst (OverlayV5.collect experiments_in_group) in
  let all_relative_errors := snd (OverlayV5.collect experiments_in_group) in
  NoDup (map fst results)
  /\ (forall name,
        dict_get results name
        = option_map experiment_stats (last_named name experiments_in_group))
  /\ all_relative_errors
     = flat_map (fun e => OverlayV5.relative_errors (experiment_stats e))
         experiments_in_group.
Proof.
  cbv zeta. destruct (collect_spec experiments_in_group) as [H1 [H2 [_ H4]]].
  auto.
Qed.

(** X6. Every instrument of a group gets a colour: the name of each
    experiment is a key of [instrument_colors], its colour is one of the
    [len(experiments_in_group)] colours (no index is out of range), and no
    other name gets the same colour. *)
Theorem every_instrument_coloured (experiments_in_group : list OverlayV5.experiment)
    (name : string) :
  let results := fst (OverlayV5.collect experiments_in_group) in
  In name (map (fun e => fst (fst (fst e))) experiments_in_group) ->
  exists i,
    dict_get (instrument_colors results) name = Some i
    /\ (i < length experiments_in_group)%nat
    /\ forall name', dict_get (instrument_colors results) name' = Some i -> name' = name.
Proof.
  cbv zeta. intros Hin.
  destruct (collect_spec experiments_in_group) as [_ [H2 [H3 _]]].
  destruct (last_named_in name experiments_in_group Hin) as [e He].
  specialize (H2 name). rewrite He in H2. apply dict_get_key in H2.
  unfold instrument_colors. rewrite <- (length_map fst).
  destruct (colours_total (map fst (fst (OverlayV5.collect experiments_in_group))) 0 name H2)
    as [i Hi].
  exists i. split; [exact Hi |].
  pose proof (colours_from _ _ _ _ Hi) as [Hr Hn].
  rewrite length_map in Hr. split; [lia |].
  intros name' Hi'. pose proof (colours_from _ _ _ _ Hi') as [_ Hn'].
  rewrite Hn in Hn'. injection Hn' as ->. reflexivity.
Qed.

Lemma every_instrument_coloured_witness :
  exists i,
    dict_get (instrument_colors
                (fst (OverlayV5.collect [("a"%string, Num 1, Num 1, [Num 1]);
                                         ("b"%string, Num 1, Num 1, [Num 1])])))
      "b"%string = Some i
    /\ (i < 2)%nat
    /\ forall name',
         dict_get (instrument_colors
                     (fst (OverlayV5.collect [("a"%string, Num 1, Num 1, [Num 1]);
                                              ("b"%string, Num 1, Num 1, [Num 1])]))) name' = Some i ->
         name' = "b"%string.
Proof.
  apply (every_instrument_coloured
           [("a"%string, Num 1, Num 1, [Num 1]); ("b"%string, Num 1, Num 1, [Num 1])] "b"%string).
  right. left. reflexivity.
Defined.

(* ================================================================== *)
(** * File names *)
(* ================================================================== *)

Lemma safe_filename_map name : Files.safe_filename name = map in_file_name name.
Proof.
  unfold Files.safe_filename, Files.replace. rewrite !map_map. apply map_ext.
  intros c. unfold in_file_name.
  destruct (N.eqb_spec c Files.space) as [-> | H1]; [reflexivity |].
  destruct (N.eqb_spec c Files.slash) as [-> | H2]; [reflexivity |].
  cbn [orb]. rewrite N.eqb_refl || idtac.
  destruct (N.eqb_spec c Files.mu) as [-> | H3]; [reflexivity |].
  destruct (N.eqb_spec c Files.slash); [contradiction |].
  destruct (N.eqb_spec c Files.mu); [contradiction | reflexivity].
Qed.

Lemma in_file_name_safe c :
  in_file_name c <> Files.space /\ in_file_name c <> Files.slash
  /\ in_file_name c <> Files.mu.
Proof.
  unfold in_file_name.
  destruct (N.eqb_spec c Files.space) as [-> | H1]; [repeat split; discriminate |].
  destruct (N.eqb_spec c Files.slash) as [-> | H2]; [repeat split; discriminate |].
  cbn [orb].
  destruct (N.eqb_spec c Files.mu) as [-> | H3]; [repeat split; discriminate |].
  auto.
Qed.

Lemma in_file_name_kept c :
  c <> Files.space -> c <> Files.slash -> c <> Files.mu -> in_file_name c = c.
Proof.
  intros H1 H2 H3. unfold in_file_name.
  destruct (N.eqb_spec c Files.space); [contradiction |].
  destruct (N.eqb_spec c Files.slash); [contradiction |].
  cbn [orb]. destruct (N.eqb_spec c Files.mu); [contradiction | reflexivity].
Qed.

Lemma in_file_name_idem c : in_file_name (in_file_name c) = in_file_name c.
Proof.
  destruct (in_file_name_safe c) as [H1 [H2 H3]]. apply in_file_name_kept; auto.
Qed.

(** X3. [safe_filename] keeps the length of the instrument name, leaves no
    space, no slash and no Greek mu in it, keeps every other character
    where it stands, and changes nothing when applied again. *)
Theorem safe_filename_spec (instrument_name : Files.str) :
  let safe := Files.safe_filename instrument_name in
  length safe = length instrument_name
  /\ ~ In Files.space safe /\ ~ In Files.slash safe /\ ~ In Files.mu safe
  /\ (forall i c, nth_error instrument_name i = Some c ->
        c <> Files.space -> c <> Files.slash -> c <> Files.mu ->
        nth_error safe i = Some c)
  /\ Files.safe_filename safe = safe.
Proof.
  cbv zeta. rewrite !safe_filename_map.
  assert (Hnot : forall d, (forall c, in_file_name c <> d) ->
                   ~ In d (map in_file_name instrument_name)).
  { intros d Hd Hin. apply in_map_iff in Hin. destruct Hin as [c [Hc _]]. exact (Hd c Hc). }
  split; [apply length_map |].
  split; [apply Hnot; intros c; apply in_file_name_safe |].
  split; [apply Hnot; intros c; apply in_file_name_safe |].
  split; [apply Hnot; intros c; apply in_file_name_safe |].
  split.
  - intros i c Hi H1 H2 H3. rewrite nth_error_map, Hi. cbn [option_map].
    rewrite in_file_name_kept; auto.
  - rewrite map_map. apply map_ext. apply in_file_name_idem.
Qed.

Lemma no_slash_app (a b : Files.str) :
  ~ In Files.slash a -> ~ In Files.slash b -> ~ In Files.slash (a ++ b).
Proof. intros Ha Hb Hin. apply in_app_or in Hin. tauto. Qed.

Lemma safe_filename_no_slash name : ~ In Files.slash (Files.safe_filename name).
Proof.
  rewrite safe_filename_map. intros Hin. apply in_map_iff in Hin.
  destruct Hin as [c [Hc _]]. exact (proj1 (proj2 (in_file_name_safe c)) Hc).
Qed.

Lemma path_join_relative dir base :
  dir <> [] -> Files.endswith_sep dir = false -> ~ In Files.slash base ->
  Files.path_join dir base = dir ++ Files.slash :: base.
Proof.
  intros Hd He Hb. unfold Files.path_join.
  replace (Files.startswith_sep base) with false.
  - rewrite He. destruct dir; [congruence | reflexivity].
  - symmetry. destruct base as [| c base]; [reflexivity |]. cbn.
    apply N.eqb_neq. intros ->. apply Hb. simpl. auto.
Qed.

Lemma saving_dir_cases output_dir dir_exists made :
  (Files.saving_dir output_dir dir_exists made = Files.of_string "."
   /\ dir_exists = false /\ made = Files.OSError)
  \/ (Files.saving_dir output_dir dir_exists made = output_dir
      /\ (dir_exists = true \/ made = Files.Made)).
Proof.
  unfold Files.saving_dir. destruct dir_exists; [right; auto |].
  destruct made; [right; auto | left; auto].
Qed.

(** X4. The picture of an instrument is written directly in the saving
    directory, whatever the instrument name: the file name is that
    directory, a separator and a base name without separator.  The saving
    directory is the script's output directory, or the current directory
    exactly when the output directory is missing and cannot be made. *)
Theorem picture_in_saving_dir (instrument_name : Files.str) (dir_exists : bool)
    (made : Files.makedirs) :
  let fallback := andb (negb dir_exists)
                    (match made with Files.OSError => true | Files.Made => false end) in
  (exists base,
     ~ In Files.slash base
     /\ Files.v11_file_name instrument_name dir_exists made
        = (if fallback then Files.of_string "."
           else Files.of_string "output_condensed_with_sigma_lines")
          ++ Files.slash :: base)
  /\ (exists base,
     ~ In Files.slash base
     /\ Files.v2_file_name instrument_name dir_exists made
        = (if fallback then Files.of_string "." else Files.of_string "output05")
          ++ Files.slash :: base).
Proof.
  cbv zeta.
  assert (Hsuffix : forall suffix, ~ In Files.slash (Files.of_string suffix) ->
            ~ In Files.slash (Files.safe_filename instrument_name ++ Files.of_string suffix)).
  { intros suffix H. apply no_slash_app; [apply safe_filename_no_slash | exact H]. }
  assert (H1 : ~ In Files.slash (Files.of_string "_condensed_sigma_plot.png")).
  { vm_compute. intuition discriminate. }
  assert (H2 : ~ In Files.slash (Files.of_string "_analysis_plot.png")).
  { vm_compute. intuition discriminate. }
  split;
    [exists (Files.safe_filename instrument_name
             ++ Files.of_string "_condensed_sigma_plot.png")
    | exists (Files.safe_filename instrument_name
             ++ Files.of_string "_analysis_plot.png")];
    (split; [apply Hsuffix; assumption |]).
  - unfold Files.v11_file_name. cbv zeta.
    destruct dir_exists, made; cbn [Files.saving_dir negb andb];
      apply path_join_relative; auto; try discriminate; reflexivity.
  - unfold Files.v2_file_name. cbv zeta.
    destruct dir_exists, made; cbn [Files.saving_dir negb andb];
      apply path_join_relative; auto; try discriminate; reflexivity.
Qed.

(** X5. Two instruments get the same picture file, the later picture
    replacing the earlier, exactly when their names differ only by spaces,
    slashes and underscores standing for one another and by the Greek mu
    standing for the letter u; so do "1000[mu]L" and "1000uL". *)
Theorem file_name_collisions (name1 name2 : Files.str) (dir_exists : bool)
    (made : Files.makedirs) :
  (Files.v11_file_name name1 dir_exists made = Files.v11_file_name name2 dir_exists made
   <-> same_file_name name1 name2)
  /\ (Files.v2_file_name name1 dir_exists made = Files.v2_file_name name2 dir_exists made
      <-> same_file_name name1 name2)
  /\ Files.of_string "1000" ++ Files.mu :: Files.of_string "L" <> Files.of_string "1000uL"
  /\ same_file_name (Files.of_string "1000" ++ Files.mu :: Files.of_string "L")
       (Files.of_string "1000uL").
Proof.
  assert (Hjoin : forall dir suffix,
            dir <> [] -> Files.endswith_sep dir = false ->
            ~ In Files.slash (Files.of_string suffix) ->
            (Files.path_join dir (Files.safe_filename name1 ++ Files.of_string suffix)
             = Files.path_join dir (Files.safe_filename name2 ++ Files.of_string suffix)
             <-> same_file_name name1 name2)).
  { intros dir suffix Hd He Hs.
    rewrite !path_join_relative
      by (auto; apply no_slash_app; auto using safe_filename_no_slash).
    unfold same_file_name. rewrite <- !safe_filename_map. split.
    - intros H. apply app_inv_head in H. injection H as H.
      apply app_inv_tail in H. exact H.
    - intros ->. reflexivity. }
  split; [| split; [| split]].
  - unfold Files.v11_file_name. cbv zeta.
    destruct dir_exists, made; cbn [Files.saving_dir]; apply Hjoin;
      try discriminate; try reflexivity; vm_compute; intuition discriminate.
  - unfold Files.v2_file_name. cbv zeta.
    destruct dir_exists, made; cbn [Files.saving_dir]; apply Hjoin;
      try discriminate; try reflexivity; vm_compute; intuition discriminate.
  - discriminate.
  - reflexivity.
Qed.

Lemma path_join_prefix (dir base : Files.str) :
  Files.startswith_sep base = false ->
  exists prefix,
    (prefix = dir \/ prefix = dir ++ [Files.slash])
    /\ Files.path_join dir base = prefix ++ base.
Proof.
  intros Hb. unfold Files.path_join. rewrite Hb.
  destruct (match dir with [] => true | _ :: _ => false end || Files.endswith_sep dir).
  - exists dir. auto.
  - exists (dir ++ [Files.slash]). split; [auto |]. rewrite <- app_assoc. reflexivity.
Qed.

Lemma path_join_inj (dir base1 base2 : Files.str) :
  Files.startswith_sep base1 = false -> Files.startswith_sep base2 = false ->
  Files.path_join dir base1 = Files.path_join dir base2 -> base1 = base2.
Proof.
  intros H1 H2. unfold Files.path_join. rewrite H1, H2.
  destruct (match dir with [] => true | _ :: _ => false end || Files.endswith_sep dir);
    intros H; apply app_inv_head in H; [exact H | injection H; auto].
Qed.

(** X7. The two figures of the overlay script never share a file: in one
    output directory the file of a t-distribution figure differs from the
    file of a KDE figure, whatever the two group names; and two groups get
    the same t-distribution file exactly when their names agree once
    spaces and slashes are replaced by underscores. *)
Theorem overlay_files_distinct (group1 group2 output_dir : Files.str) :
  Files.file_name_t group1 output_dir <> Files.file_name_kde group2 output_dir
  /\ (Files.file_name_t group1 output_dir = Files.file_name_t group2 output_dir
      <-> Files.safe_group_name group1 = Files.safe_group_name group2).
Proof.
  unfold Files.file_name_t, Files.file_name_kde. split.
  - intros H. apply path_join_inj in H; [| reflexivity | reflexivity].
    vm_compute in H. discriminate H.
  - split.
    + intros H. apply path_join_inj in H; [| reflexivity | reflexivity].
      apply app_inv_head in H. apply app_inv_tail in H. exact H.
    + intros ->. reflexivity.
Qed.


(* ================================================================== *)
(** * The verdict of the t-test *)
(* ================================================================== *)

Section Verdict.

Variable t_cdf : Z -> R -> R.

Lemma sample_std_zero_var l : Stat.sample_std l = 0 -> Stat.sample_var l = 0.
Proof.
  unfold Stat.sample_std. intros H. apply sqrt_eq_0; [apply sample_var_nonneg | exact H].
Qed.

Lemma ttest_1samp_regular l popmean :
  (2 <= length l)%nat -> 0 < Stat.sample_std l ->
  SciPy.ttest_1samp t_cdf (map Num l) (Num popmean)
  = (Num ((Stat.mean l - popmean) / (Stat.sample_std l / sqrt (INR (length l)))),
     Num (2 * (1 - t_cdf (Z.of_nat (length l) - 1)
                     (Rabs ((Stat.mean l - popmean)
                            / (Stat.sample_std l / sqrt (INR (length l)))))))).
Proof.
  intros Hn Hs. exact (ttest_1samp_finite t_cdf l popmean Hn Hs).
Qed.

Lemma ttest_1samp_zero_spread l popmean :
  (2 <= length l)%nat -> Stat.sample_std l = 0 ->
  (Stat.mean l <> popmean ->
   snd (SciPy.ttest_1samp t_cdf (map Num l) (Num popmean)) = Num 0)
  /\ (Stat.mean l = popmean ->
      snd (SciPy.ttest_1samp t_cdf (map Num l) (Num popmean)) = NaN).
Proof.
  intros Hn Hs. apply sample_std_zero_var in Hs.
  pose proof (ttest_1samp_Num t_cdf l popmean Hn) as H. cbv zeta in H. rewrite H.
  cbn [snd]. rewrite Hs.
  replace (0 / INR (length l)) with 0 by (unfold Rdiv; ring). rewrite sqrt_0.
  assert (Hdf : (0 <? Z.of_nat (length l) - 1)%Z = true) by (apply Z.ltb_lt; lia).
  split; intros Hm.
  - unfold fdiv. rewrite (Rcmp_Eq 0 0) by reflexivity.
    destruct (Rcmp (Stat.mean l - popmean) 0) eqn:E.
    + exfalso. revert E. apply Rcmp_neq. lra.
    + cbn [fabs]. unfold SciPy.t_sf. rewrite Hdf. cbn [fmul]. f_equal. lra.
    + cbn [fabs]. unfold SciPy.t_sf. rewrite Hdf. cbn [fmul]. f_equal. lra.
  - replace (Stat.mean l - popmean) with 0 by lra. rewrite fdiv_zero_zero.
    cbn [fabs]. unfold SciPy.t_sf. rewrite Hdf. reflexivity.
Qed.

(** X9. The verdict the two single-instrument scripts print.  For a finite
    sample of N >= 2 weights both scripts take the same branch.  With a
    positive standard deviation the result is called significant
    (inaccurate) exactly when the t distribution function at |t| exceeds
    0.975.  With a standard deviation of 0 it is called significant, with a
    p-value of 0, when the mean differs from the target, and not
    significant (accurate), with a p-value of NaN, when the mean is the
    target.  Exact arithmetic. *)
Theorem significance_verdict (name : string) (target_volume density : R)
    (weights : list R) :
  (2 <= length weights)%nat -> density <> 0 ->
  let volumes := map (fun w => w / density) weights in
  let mu := Stat.mean volumes in
  let sigma := Stat.sample_std volumes in
  exists fig fig2,
    VolumeV11.analyze_and_plot t_cdf name (Num target_volume) (Num density) (map Num weights)
      = Ok fig
    /\ KdeV2.analyze_and_plot t_cdf name (Num target_volume) (Num density) (map Num weights)
       = Ok fig2
    /\ KdeV2.significant fig2 = VolumeV11.significant fig
    /\ (0 < sigma ->
        (VolumeV11.significant fig = true
         <-> 975 / 1000
             < t_cdf (Z.of_nat (length weights) - 1)
                 (Rabs ((mu - target_volume) / (sigma / sqrt (INR (length weights)))))))
    /\ (sigma = 0 -> mu <> target_volume ->
        VolumeV11.p_value fig = Num 0 /\ VolumeV11.significant fig = true)
    /\ (sigma = 0 -> mu = target_volume ->
        VolumeV11.p_value fig = NaN /\ VolumeV11.significant fig = false).
Proof.
  intros Hn Hd volumes mu sigma.
  assert (Hlen : length volumes = length weights) by apply length_map.
  rewrite v11_fields, v2_fields. cbv zeta.
  rewrite !arr_div_Num by exact Hd. fold volumes.
  eexists. eexists. split; [reflexivity |]. split; [reflexivity |].
  cbn [VolumeV11.significant KdeV2.significant VolumeV11.p_value].
  split; [reflexivity |]. split; [| split].
  - intros Hs. rewrite ttest_1samp_regular by (try lia; exact Hs).
    cbn [snd flt]. rewrite Rltb_spec, Hlen. fold mu sigma. lra.
  - intros Hs Hm.
    destruct (ttest_1samp_zero_spread volumes target_volume) as [H _]; [lia | exact Hs |].
    rewrite (H Hm). split; [reflexivity |]. cbn [flt]. apply Rltb_true. lra.
  - intros Hs Hm.
    destruct (ttest_1samp_zero_spread volumes target_volume) as [_ H]; [lia | exact Hs |].
    rewrite (H Hm). split; reflexivity.
Qed.

End Verdict.

Lemma significance_verdict_witness :
  exists fig fig2,
    VolumeV11.analyze_and_plot cauchy_cdf "pipette"%string (Num 2) (Num 1) [Num 1; Num 3]
      = Ok fig
    /\ KdeV2.analyze_and_plot cauchy_cdf "pipette"%string (Num 2) (Num 1) [Num 1; Num 3]
       = Ok fig2
    /\ KdeV2.significant fig2 = VolumeV11.significant fig.
Proof.
  destruct (significance_verdict cauchy_cdf "pipette"%string 2 1 [1; 3] (le_n 2) R1_neq_R0)
    as [fig [fig2 [H1 [H2 [H3 _]]]]].
  exists fig, fig2. split; [exact H1 |]. split; [exact H2 | exact H3].
Defined.

(* ================================================================== *)
(** * The figure of one instrument *)
(* ================================================================== *)

Section Figure.

Variable t_cdf : Z -> R -> R.

Lemma scaled_volumes k density weights :
  map (fun w => w / density) (map (Rmult k) weights)
  = map (fun v => k * v + 0) (map (fun w => w / density) weights).
Proof.
  rewrite !map_map. apply map_ext. intros w. unfold Rdiv. ring.
Qed.

(** X10. The t-test does not depend on the unit of volume: multiplying every
    weight and the target volume by the same [k > 0] multiplies the mean
    and the standard deviation by [k] and leaves the t-statistic, the
    p-value, the verdict and the relative error as they are.  Exact
    arithmetic, for N >= 2 and a positive standard deviation. *)
Theorem unit_change_invariant (name : string) (target_volume density k : R)
    (weights : list R) :
  (2 <= length weights)%nat -> density <> 0 -> target_volume <> 0 -> 0 < k ->
  0 < Stat.sample_std (map (fun w => w / density) weights) ->
  exists fig fig',
    VolumeV11.analyze_and_plot t_cdf name (Num target_volume) (Num density) (map Num weights)
      = Ok fig
    /\ VolumeV11.analyze_and_plot t_cdf name (Num (k * target_volume)) (Num density)
         (map Num (map (Rmult k) weights))
       = Ok fig'
    /\ VolumeV11.mu fig' = fmul (Num k) (VolumeV11.mu fig)
    /\ VolumeV11.sigma fig' = fmul (Num k) (VolumeV11.sigma fig)
    /\ VolumeV11.t_statistic fig' = VolumeV11.t_statistic fig
    /\ VolumeV11.p_value fig' = VolumeV11.p_value fig
    /\ VolumeV11.significant fig' = VolumeV11.significant fig
    /\ VolumeV11.relative_error fig' = VolumeV11.relative_error fig.
Proof.
  intros Hn Hd Ht Hk Hs.
  set (volumes := map (fun w => w / density) weights) in *.
  assert (Hlen : length volumes = length weights) by apply length_map.
  assert (Hne : volumes <> []) by (intros E; rewrite E in Hlen; simpl in Hlen; lia).
  assert (Hm : Stat.mean (map (fun v => k * v + 0) volumes) = k * Stat.mean volumes)
    by (rewrite mean_affine by exact Hne; ring).
  assert (Hsd : Stat.sample_std (map (fun v => k * v + 0) volumes)
                = k * Stat.sample_std volumes)
    by (rewrite std_affine by exact Hne; rewrite Rabs_pos_eq by lra; reflexivity).
  assert (Hsq : 0 < sqrt (INR (length volumes))).
  { apply sqrt_lt_R0. apply lt_0_INR. lia. }
  assert (Ht' : (k * Stat.mean volumes - k * target_volume)
                / (k * Stat.sample_std volumes / sqrt (INR (length volumes)))
                = (Stat.mean volumes - target_volume)
                  / (Stat.sample_std volumes / sqrt (INR (length volumes))))
    by (field; repeat split; lra).
  rewrite !v11_fields. cbv zeta.
  rewrite !arr_div_Num by exact Hd. rewrite scaled_volumes. fold volumes.
  clearbody volumes.
  rewrite (ttest_1samp_regular t_cdf volumes) by (try lia; exact Hs).
  rewrite (ttest_1samp_regular t_cdf (map (fun v => k * v + 0) volumes))
    by (rewrite ?length_map; try lia; rewrite Hsd; nra).
  rewrite !np_mean_Num, !np_std_Num
    by (rewrite ?length_map; try lia; try exact Hne;
        intros E; apply map_eq_nil in E; exact (Hne E)).
  rewrite Hm, Hsd, !length_map, Ht'.
  eexists. eexists. split; [reflexivity |]. split; [reflexivity |].
  cbn [VolumeV11.mu VolumeV11.sigma VolumeV11.t_statistic VolumeV11.p_value
       VolumeV11.significant VolumeV11.relative_error fst snd fmul].
  repeat (split; [reflexivity |]).
  rewrite !fsub_Num, !fdiv_Num by nra. cbn [fmul]. f_equal. field. split; lra.
Qed.

Lemma figure_finite name target_volume density weights :
  (2 <= length weights)%nat -> density <> 0 ->
  let volumes := map (fun w => w / density) weights in
  let mu := Stat.mean volumes in
  let sigma := Stat.sample_std volumes in
  exists fig,
    VolumeV11.analyze_and_plot t_cdf name (Num target_volume) (Num density) (map Num weights)
      = Ok fig
    /\ VolumeV11.mu fig = Num mu /\ VolumeV11.sigma fig = Num sigma
    /\ VolumeV11.x_min fig = Num (mu - 4 * sigma)
    /\ VolumeV11.x_max fig = Num (mu + 4 * sigma)
    /\ VolumeV11.x_curve fig = map Num (Stat.grid (mu - 4 * sigma) (mu + 4 * sigma) 1000)
    /\ VolumeV11.y_curve_t fig
       = map (fun x => SciPy.t_pdf x (Z.of_nat (length weights) - 1) (Num mu) (Num sigma))
           (map Num (Stat.grid (mu - 4 * sigma) (mu + 4 * sigma) 1000))
    /\ VolumeV11.sigma_ticks fig
       = map Num [mu - 3 * sigma; mu - 2 * sigma; mu - 1 * sigma; mu;
                  mu + 1 * sigma; mu + 2 * sigma; mu + 3 * sigma].
Proof.
  intros Hn Hd volumes mu sigma.
  assert (Hlen : length volumes = length weights) by apply length_map.
  assert (Hne : volumes <> []) by (intros E; rewrite E in Hlen; simpl in Hlen; lia).
  rewrite v11_fields. cbv zeta. rewrite arr_div_Num by exact Hd. fold volumes.
  rewrite np_mean_Num, np_std_Num by (try lia; exact Hne). fold mu sigma.
  cbn [fmul]. rewrite !fsub_Num. cbn [fadd]. rewrite linspace_Num by lia.
  rewrite length_map, Hlen.
  eexists. split; [reflexivity |].
  cbn [VolumeV11.mu VolumeV11.sigma VolumeV11.x_min VolumeV11.x_max VolumeV11.x_curve
       VolumeV11.y_curve_t VolumeV11.sigma_ticks].
  repeat (split; [reflexivity |]). reflexivity.
Qed.

Lemma sample_std_nonneg l : 0 <= Stat.sample_std l.
Proof. unfold Stat.sample_std. apply sqrt_pos. Qed.

(** X11. The seven tick marks of the top axis, [mu - 3 sigma] to
    [mu + 3 sigma], are in increasing order, the mean in the middle, and
    all of them lie within the limits [x_min, x_max] of the x-axis.  Exact
    arithmetic, for N >= 2. *)
Theorem sigma_ticks_in_range (name : string) (target_volume density : R)
    (weights : list R) :
  (2 <= length weights)%nat -> density <> 0 ->
  exists fig ticks a b,
    VolumeV11.analyze_and_plot t_cdf name (Num target_volume) (Num density) (map Num weights)
      = Ok fig
    /\ VolumeV11.sigma_ticks fig = map Num ticks
    /\ VolumeV11.x_min fig = Num a /\ VolumeV11.x_max fig = Num b
    /\ length ticks = 7%nat
    /\ VolumeV11.mu fig = Num (nth 3 ticks 0)
    /\ StronglySorted Rle ticks
    /\ (forall x, In x ticks -> a <= x <= b).
Proof.
  intros Hn Hd.
  destruct (figure_finite name target_volume density weights Hn Hd)
    as [fig [Hfig [Hmu [_ [Hmin [Hmax [_ [_ Hticks]]]]]]]].
  pose proof (sample_std_nonneg (map (fun w => w / density) weights)) as Hs.
  set (mu := Stat.mean (map (fun w => w / density) weights)) in *.
  set (sigma := Stat.sample_std (map (fun w => w / density) weights)) in *.
  exists fig. eexists. eexists. eexists.
  split; [exact Hfig |]. split; [exact Hticks |]. split; [exact Hmin |].
  split; [exact Hmax |]. split; [reflexivity |]. split; [exact Hmu |]. split.
  - repeat (constructor; [| repeat (constructor; [lra |]); constructor]).
    constructor.
  - intros x Hx. cbn [In] in Hx.
    repeat (destruct Hx as [<- | Hx]; [lra |]). contradiction.
Qed.

(** X12. The line of the target volume is drawn before the limits of the
    x-axis are set to [mu - 4 sigma] and [mu + 4 sigma]: it falls within
    the limits exactly when |t| <= 4 sqrt N.  An instrument whose mean
    lies further from the target has a figure without the target line.
    Exact arithmetic, for N >= 2 and a positive standard deviation. *)
Theorem target_line_visible (name : string) (target_volume density : R)
    (weights : list R) :
  (2 <= length weights)%nat -> density <> 0 ->
  0 < Stat.sample_std (map (fun w => w / density) weights) ->
  exists fig a b t,
    VolumeV11.analyze_and_plot t_cdf name (Num target_volume) (Num density) (map Num weights)
      = Ok fig
    /\ VolumeV11.x_min fig = Num a /\ VolumeV11.x_max fig = Num b
    /\ VolumeV11.t_statistic fig = Num t
    /\ (a <= target_volume <= b <-> Rabs t <= 4 * sqrt (INR (length weights))).
Proof.
  intros Hn Hd Hs.
  set (volumes := map (fun w => w / density) weights) in *.
  assert (Hlen : length volumes = length weights) by apply length_map.
  assert (Hne : volumes <> []) by (intros E; rewrite E in Hlen; simpl in Hlen; lia).
  rewrite v11_fields. cbv zeta. rewrite arr_div_Num by exact Hd. fold volumes.
  rewrite np_mean_Num, np_std_Num by (try lia; exact Hne).
  rewrite ttest_1samp_regular by (try lia; exact Hs).
  cbn [fmul]. rewrite !fsub_Num. cbn [fadd].
  eexists. eexists. eexists. eexists.
  split; [reflexivity |].
  cbn [VolumeV11.x_min VolumeV11.x_max VolumeV11.t_statistic fst].
  split; [reflexivity |]. split; [reflexivity |]. split; [reflexivity |].
  - rewrite Hlen. clearbody volumes.
    set (mu := Stat.mean volumes). set (sigma := Stat.sample_std volumes) in *.
    assert (Hsq : 0 < sqrt (INR (length weights))).
    { apply sqrt_lt_R0. apply lt_0_INR. lia. }
    set (r := sqrt (INR (length weights))) in *.
    replace ((mu - target_volume) / (sigma / r)) with ((mu - target_volume) / sigma * r)
      by (field; lra).
    rewrite Rabs_mult, (Rabs_pos_eq r) by lra.
    unfold Rdiv. rewrite Rabs_mult, (Rabs_pos_eq (/ sigma))
      by (apply Rlt_le, Rinv_0_lt_compat; exact Hs).
    assert (Hinv : 0 < / sigma) by (apply Rinv_0_lt_compat; exact Hs).
    assert (Hone : sigma * / sigma = 1) by (field; lra).
    split.
    + intros [H1 H2].
      assert (Rabs (mu - target_volume) <= 4 * sigma) by (apply Rabs_le; lra).
      assert (Rabs (mu - target_volume) * / sigma <= 4).
      { replace 4 with (4 * sigma * / sigma) by (rewrite Rmult_assoc, Hone; ring).
        apply Rmult_le_compat_r; lra. }
      apply Rmult_le_compat_r; lra.
    + intros H.
      assert (H4 : Rabs (mu - target_volume) * / sigma <= 4).
      { apply Rmult_le_reg_r with r; lra. }
      assert (Rabs (mu - target_volume) <= 4 * sigma).
      { replace (Rabs (mu - target_volume))
          with (Rabs (mu - target_volume) * / sigma * sigma)
          by (rewrite Rmult_assoc, (Rmult_comm (/ sigma)), Hone; ring).
        apply Rmult_le_compat_r; lra. }
      generalize (Rle_abs (mu - target_volume)), (Rle_abs (- (mu - target_volume))).
      rewrite Rabs_Ropp. lra.
Qed.

End Figure.

(* ================================================================== *)
(** * The t-distribution curve *)
(* ================================================================== *)

Lemma t_pdf_std_even df y : SciPy.t_pdf_std df (- y) = SciPy.t_pdf_std df y.
Proof.
  unfold SciPy.t_pdf_std. cbv zeta. replace (- y * - y) with (y * y) by ring. reflexivity.
Qed.

Lemma t_density_symmetric df mu sigma d :
  sigma <> 0 -> Stat.t_density df mu sigma (mu - d) = Stat.t_density df mu sigma (mu + d).
Proof.
  intros Hs. unfold Stat.t_density.
  replace ((mu - d - mu) / sigma) with (- ((mu + d - mu) / sigma)) by (field; exact Hs).
  rewrite t_pdf_std_even. reflexivity.
Qed.

Lemma t_density_pos df mu sigma x :
  (0 < df)%Z -> 0 < sigma -> 0 < Stat.t_density df mu sigma x.
Proof.
  intros Hdf Hs. unfold Stat.t_density. apply Rdiv_lt_0_compat; [| exact Hs].
  apply t_pdf_std_pos. exact Hdf.
Qed.

Lemma grid_point mu sigma j :
  (j < 1000)%nat ->
  nth j (Stat.grid (mu - 4 * sigma) (mu + 4 * sigma) 1000) 0
  = mu - (4 * sigma - INR j * (8 * sigma / 999)).
Proof.
  intros Hj. rewrite grid_nth by exact Hj.
  replace (INR (1000 - 1)) with 999 by (simpl; lra). lra.
Qed.

Lemma nth_map_grid (f : R -> R) a b j :
  (j < 1000)%nat ->
  nth j (map f (Stat.grid a b 1000)) 0 = f (nth j (Stat.grid a b 1000) 0).
Proof.
  intros Hj.
  rewrite (nth_indep (map f (Stat.grid a b 1000)) 0 (f 0))
    by (rewrite length_map, grid_length; exact Hj).
  apply map_nth.
Qed.

Section Curve.

Variable t_cdf : Z -> R -> R.

(** X13. The t-distribution curve of a figure is drawn at 1000 points; it is
    positive everywhere, symmetric about the mean (point [j] and point
    [999 - j] have the same height), and stays below the density at the
    mean, which is none of the 1000 points.  Exact arithmetic, for N >= 2
    and a positive standard deviation. *)
Theorem t_curve_symmetric (name : string) (target_volume density : R) (weights : list R) :
  (2 <= length weights)%nat -> density <> 0 ->
  let volumes := map (fun w => w / density) weights in
  let mu := Stat.mean volumes in
  let sigma := Stat.sample_std volumes in
  0 < sigma ->
  exists fig ys,
    VolumeV11.analyze_and_plot t_cdf name (Num target_volume) (Num density) (map Num weights)
      = Ok fig
    /\ VolumeV11.y_curve_t fig = map Num ys
    /\ length ys = 1000%nat
    /\ forall j, (j < 1000)%nat ->
         nth j ys 0 = nth (999 - j) ys 0
         /\ 0 < nth j ys 0
            < Stat.t_density (Z.of_nat (length weights) - 1) mu sigma mu.
Proof.
  intros Hn Hd volumes mu sigma Hs.
  destruct (figure_finite t_cdf name target_volume density weights Hn Hd)
    as [fig [Hfig [_ [_ [_ [_ [_ [Hy _]]]]]]]].
  fold volumes in Hy. fold mu sigma in Hy.
  set (df := (Z.of_nat (length weights) - 1)%Z) in *.
  assert (Hdf : (0 < df)%Z) by (unfold df; lia).
  exists fig, (map (Stat.t_density df mu sigma)
                 (Stat.grid (mu - 4 * sigma) (mu + 4 * sigma) 1000)).
  split; [exact Hfig |]. split.
  { rewrite Hy, !map_map. apply map_ext. intros x. apply t_pdf_finite; assumption. }
  split; [rewrite length_map; apply grid_length |].
  intros j Hj.
  rewrite !nth_map_grid, !grid_point by lia.
  rewrite minus_INR by lia.
  replace (mu - (4 * sigma - (INR 999 - INR j) * (8 * sigma / 999)))
    with (mu + (4 * sigma - INR j * (8 * sigma / 999)))
    by (replace (INR 999) with 999 by (simpl; lra); field).
  split; [apply t_density_symmetric; lra |].
  split; [apply t_density_pos; assumption |].
  apply t_density_mode; try assumption.
  intros E.
  assert (E2 : INR (2 * j) = INR 999).
  { rewrite mult_INR. replace (INR 999) with 999 by (simpl; lra).
    replace (INR 2) with 2 by (simpl; lra). nra. }
  apply INR_eq in E2. lia.
Qed.

End Curve.

Lemma t_curve_symmetric_witness :
  exists fig ys,
    VolumeV11.analyze_and_plot cauchy_cdf "pipette"%string (Num 2) (Num 1) [Num 1; Num 3]
      = Ok fig
    /\ VolumeV11.y_curve_t fig = map Num ys
    /\ nth 0 ys 0 = nth 999 ys 0.
Proof.
  assert (Hs : 0 < Stat.sample_std (map (fun w => w / 1) [1; 3]))
    by (cbn [map]; apply std_pair_pos; lra).
  destruct (t_curve_symmetric cauchy_cdf "pipette"%string 2 1 [1; 3] (le_n 2) R1_neq_R0 Hs)
    as [fig [ys [Hfig [Hy [_ Hsym]]]]].
  exists fig, ys. split; [exact Hfig |]. split; [exact Hy |].
  apply (Hsym 0%nat). lia.
Defined.

(* ================================================================== *)
(** * The order of the readings and the trimmed mean *)
(* ================================================================== *)

Lemma sum_permutation l l' : Permutation l l' -> Stat.sum l = Stat.sum l'.
Proof.
  induction 1 as [| x l l' _ IH | x y l | l l' l'' _ IH1 _ IH2].
  - reflexivity.
  - change (x + Stat.sum l = x + Stat.sum l'). rewrite IH. reflexivity.
  - change (y + (x + Stat.sum l) = x + (y + Stat.sum l)). ring.
  - rewrite IH1. exact IH2.
Qed.

Lemma mean_permutation l l' : Permutation l l' -> Stat.mean l = Stat.mean l'.
Proof.
  intros H. unfold Stat.mean.
  rewrite (sum_permutation l l' H), (Permutation_length H). reflexivity.
Qed.

Lemma var_permutation l l' : Permutation l l' -> Stat.sample_var l = Stat.sample_var l'.
Proof.
  intros H. unfold Stat.sample_var.
  rewrite (mean_permutation l l' H), (Permutation_length H).
  f_equal. apply sum_permutation. apply Permutation_map. exact H.
Qed.

Lemma std_permutation l l' : Permutation l l' -> Stat.sample_std l = Stat.sample_std l'.
Proof. intros H. unfold Stat.sample_std. rewrite (var_permutation l l' H). reflexivity. Qed.

(** Two lists in increasing order with the same items are the same list. *)
Lemma sorted_unique l : forall l',
  Sorted Rle l -> Sorted Rle l' -> Permutation l l' -> l = l'.
Proof.
  induction l as [| a l IH]; intros l' Hs Hs' Hp.
  - apply Permutation_nil in Hp. auto.
  - destruct l' as [| b l'].
    + apply Permutation_sym, Permutation_nil in Hp. discriminate.
    + apply Sorted_StronglySorted in Hs; [| intros x y z; apply Rle_trans].
      apply Sorted_StronglySorted in Hs'; [| intros x y z; apply Rle_trans].
      inversion Hs as [| ? ? Hsl Ha]; subst. inversion Hs' as [| ? ? Hsl' Hb]; subst.
      rewrite Forall_forall in Ha, Hb.
      assert (Hab : a = b).
      { assert (H1 : In a (b :: l')) by (apply (Permutation_in _ Hp); simpl; auto).
        assert (H2 : In b (a :: l))
          by (apply (Permutation_in _ (Permutation_sym Hp)); simpl; auto).
        destruct H1 as [H1 | H1]; [auto |]. destruct H2 as [H2 | H2]; [auto |].
        apply Rle_antisym; auto. }
      subst b. f_equal. apply IH.
      * apply StronglySorted_Sorted. exact Hsl.
      * apply StronglySorted_Sorted. exact Hsl'.
      * apply Permutation_cons_inv with a. exact Hp.
Qed.

Lemma sort_permuted l l' : Permutation l l' -> Stat.sort l = Stat.sort l'.
Proof.
  intros H. apply sorted_unique; try apply sort_sorted.
  apply Permutation_trans with l'; [| apply sort_permutation].
  apply Permutation_trans with l; [apply Permutation_sym, sort_permutation | exact H].
Qed.

Lemma trimmed_mean_permutation l l' :
  Permutation l l' -> Stat.trimmed_mean l = Stat.trimmed_mean l'.
Proof.
  intros H. unfold Stat.trimmed_mean.
  rewrite (sort_permuted l l' H), (Permutation_length H). reflexivity.
Qed.

Lemma sorted_snoc s M :
  Sorted Rle s -> (forall x, In x s -> x <= M) -> Sorted Rle (s ++ [M]).
Proof.
  induction s as [| a s IH]; intros Hs Hle.
  - repeat constructor.
  - inversion Hs as [| ? ? Hs' Hhd]; subst. cbn [app]. constructor.
    + apply IH; [exact Hs' | intros x Hx; apply Hle; simpl; auto].
    + destruct s as [| b s]; cbn [app]; constructor.
      * apply Hle. simpl. auto.
      * inversion Hhd; subst. assumption.
Qed.

Lemma sorted_cons_min s m :
  Sorted Rle s -> (forall x, In x s -> m <= x) -> Sorted Rle (m :: s).
Proof.
  intros Hs Hle. constructor; [exact Hs |].
  destruct s as [| b s]; constructor. apply Hle. simpl. auto.
Qed.

(** The sorted sample when its largest, or its smallest, item is singled out. *)
Lemma sort_with_max l1 l2 M :
  (forall x, In x (l1 ++ l2) -> x <= M) ->
  Stat.sort (l1 ++ M :: l2) = Stat.sort (l1 ++ l2) ++ [M].
Proof.
  intros H. apply sorted_unique.
  - apply sort_sorted.
  - apply sorted_snoc; [apply sort_sorted |].
    intros x Hx. apply H.
    apply (Permutation_in _ (Permutation_sym (sort_permutation (l1 ++ l2)))). exact Hx.
  - apply Permutation_trans with (l1 ++ M :: l2);
      [apply Permutation_sym, sort_permutation |].
    apply Permutation_trans with (M :: l1 ++ l2);
      [apply Permutation_sym, Permutation_middle |].
    apply Permutation_trans with (M :: Stat.sort (l1 ++ l2));
      [constructor; apply sort_permutation | apply Permutation_cons_append].
Qed.

Lemma sort_with_min l1 l2 m :
  (forall x, In x (l1 ++ l2) -> m <= x) ->
  Stat.sort (l1 ++ m :: l2) = m :: Stat.sort (l1 ++ l2).
Proof.
  intros H. apply sorted_unique.
  - apply sort_sorted.
  - apply sorted_cons_min; [apply sort_sorted |].
    intros x Hx. apply H.
    apply (Permutation_in _ (Permutation_sym (sort_permutation (l1 ++ l2)))). exact Hx.
  - apply Permutation_trans with (l1 ++ m :: l2);
      [apply Permutation_sym, sort_permutation |].
    apply Permutation_trans with (m :: l1 ++ l2);
      [apply Permutation_sym, Permutation_middle |].
    constructor. apply sort_permutation.
Qed.

Lemma trimmed_mean_without_max l1 l2 M :
  (5 <= length (l1 ++ l2))%nat ->
  (forall x, In x (l1 ++ l2) -> x <= M) ->
  let n := S (length (l1 ++ l2)) in
  Stat.trimmed_mean (l1 ++ M :: l2)
  = Stat.mean (firstn (n - 2 * (n / 6)) (skipn (n / 6) (Stat.sort (l1 ++ l2)))).
Proof.
  intros Hn H n. unfold Stat.trimmed_mean.
  assert (Hlen : length (l1 ++ M :: l2) = n).
  { unfold n. rewrite !length_app. cbn [length]. lia. }
  rewrite Hlen, sort_with_max by exact H.
  assert (Hk1 : (1 <= n / 6)%nat).
  { apply Nat.div_le_lower_bound; unfold n; lia. }
  assert (Hk2 : (6 * (n / 6) <= n)%nat).
  { generalize (Nat.div_mod_eq n 6). lia. }
  assert (Hs : length (Stat.sort (l1 ++ l2)) = (n - 1)%nat).
  { rewrite sort_length. unfold n. lia. }
  rewrite skipn_app, firstn_app, length_skipn, Hs.
  replace (n / 6 - (n - 1))%nat with 0%nat by lia.
  replace (n - 2 * (n / 6) - (n - 1 - n / 6))%nat with 0%nat by lia.
  cbn [skipn firstn]. rewrite app_nil_r. reflexivity.
Qed.

Lemma trimmed_mean_without_min l1 l2 m :
  (5 <= length (l1 ++ l2))%nat ->
  (forall x, In x (l1 ++ l2) -> m <= x) ->
  let n := S (length (l1 ++ l2)) in
  Stat.trimmed_mean (l1 ++ m :: l2)
  = Stat.mean (firstn (n - 2 * (n / 6)) (skipn (n / 6 - 1) (Stat.sort (l1 ++ l2)))).
Proof.
  intros Hn H n. unfold Stat.trimmed_mean.
  assert (Hlen : length (l1 ++ m :: l2) = n).
  { unfold n. rewrite !length_app. cbn [length]. lia. }
  rewrite Hlen, sort_with_min by exact H.
  assert (Hk1 : (1 <= n / 6)%nat).
  { apply Nat.div_le_lower_bound; unfold n; lia. }
  destruct (n / 6)%nat as [| k] eqn:E; [lia |].
  cbn [skipn]. replace (S k - 1)%nat with k by lia. reflexivity.
Qed.

Lemma sum_app l1 l2 : Stat.sum (l1 ++ l2) = Stat.sum l1 + Stat.sum l2.
Proof.
  induction l1 as [| x l1 IH]; cbn [app].
  - change (Stat.sum []) with 0. ring.
  - change (x + Stat.sum (l1 ++ l2) = x + Stat.sum l1 + Stat.sum l2). rewrite IH. ring.
Qed.

Lemma mean_replace l1 l2 v v' :
  Stat.mean (l1 ++ v' :: l2)
  = Stat.mean (l1 ++ v :: l2) + (v' - v) / INR (length (l1 ++ v :: l2)).
Proof.
  unfold Stat.mean.
  replace (length (l1 ++ v' :: l2)) with (length (l1 ++ v :: l2))
    by (rewrite !length_app; reflexivity).
  rewrite !sum_app.
  change (Stat.sum (v' :: l2)) with (v' + Stat.sum l2).
  change (Stat.sum (v :: l2)) with (v + Stat.sum l2).
  field. apply INR_length_neq_0. destruct l1; discriminate.
Qed.

Section Robust.

Variable t_cdf : Z -> R -> R.

(** X14. The trimmed mean does not see the extreme reading: in a sample of
    N >= 6 weights, making the largest weight larger still, or the smallest
    smaller still, leaves the trimmed mean as it is, while the mean moves
    by the change of the volume over N.  Exact arithmetic. *)
Theorem trimmed_mean_ignores_extremes (name : string) (target_volume : float)
    (density w w' : R) (l1 l2 : list R) :
  (5 <= length (l1 ++ l2))%nat -> 0 < density ->
  ((forall x, In x (l1 ++ l2) -> x <= w) /\ w <= w')
  \/ ((forall x, In x (l1 ++ l2) -> w <= x) /\ w' <= w) ->
  exists fig fig' m,
    KdeV2.analyze_and_plot t_cdf name target_volume (Num density) (map Num (l1 ++ w :: l2))
      = Ok fig
    /\ KdeV2.analyze_and_plot t_cdf name target_volume (Num density)
         (map Num (l1 ++ w' :: l2))
       = Ok fig'
    /\ KdeV2.trimmed_mean fig = Some (Num m)
    /\ KdeV2.trimmed_mean fig' = Some (Num m)
    /\ KdeV2.mu fig'
       = fadd (KdeV2.mu fig) (Num ((w' - w) / density / INR (S (length (l1 ++ l2))))).
Proof.
  intros Hn Hd Hw.
  set (f := fun x : R => x / density).
  assert (Hmono : forall x y, x <= y -> f x <= f y).
  { intros x y Hxy. unfold f, Rdiv. apply Rmult_le_compat_r; [| exact Hxy].
    apply Rlt_le, Rinv_0_lt_compat. exact Hd. }
  assert (Hlen : (5 <= length (map f l1 ++ map f l2))%nat)
    by (rewrite <- map_app, length_map; exact Hn).
  assert (Hin : forall y, In y (map f l1 ++ map f l2) -> exists x, y = f x /\ In x (l1 ++ l2)).
  { intros y Hy. rewrite <- map_app in Hy. apply in_map_iff in Hy.
    destruct Hy as [x [Hx Hxin]]. eauto. }
  assert (Hne : forall v, map f l1 ++ f v :: map f l2 <> [])
    by (intros v; destruct (map f l1); discriminate).
  rewrite !v2_fields. cbv zeta. rewrite !arr_div_Num by lra.
  fold f.
  assert (Hv : forall v, map f (l1 ++ v :: l2) = map f l1 ++ f v :: map f l2)
    by (intros v; rewrite map_app; reflexivity).
  rewrite !Hv.
  rewrite !trim_mean_sixth_finite, !np_mean_Num by apply Hne.
  rewrite (mean_replace (map f l1) (map f l2) (f w) (f w')).
  eexists. eexists. eexists. split; [reflexivity |]. split; [reflexivity |].
  cbn [KdeV2.trimmed_mean KdeV2.mu try_except fadd].
  split; [reflexivity |]. split.
  - do 2 f_equal. destruct Hw as [[Hmax Hle] | [Hmin Hle]].
    + rewrite !trimmed_mean_without_max; auto.
      * intros y Hy. destruct (Hin y Hy) as [x [-> Hx]]. apply Hmono. auto.
      * intros y Hy. destruct (Hin y Hy) as [x [-> Hx]]. apply Hmono.
        apply Rle_trans with w; auto.
    + rewrite !trimmed_mean_without_min; auto.
      * intros y Hy. destruct (Hin y Hy) as [x [-> Hx]]. apply Hmono. auto.
      * intros y Hy. destruct (Hin y Hy) as [x [-> Hx]]. apply Hmono.
        apply Rle_trans with w; auto.
  - do 2 f_equal.
    assert (HN : length (map f l1 ++ f w :: map f l2) = S (length (l1 ++ l2)))
      by (rewrite !length_app; cbn [length]; rewrite !length_map; lia).
    rewrite HN. unfold f. field.
    split; try lra. apply not_0_INR. lia.
Qed.

(** X15. The order in which the weights were read does not matter: two
    samples with the same weights in a different order get the same mean,
    standard deviation, t-statistic, p-value, verdict, relative error,
    trimmed mean and x-axis limits.  Exact arithmetic, for N >= 2. *)
Theorem order_of_readings_irrelevant (name : string) (target_volume density : R)
    (weights weights' : list R) :
  (2 <= length weights)%nat -> density <> 0 -> Permutation weights weights' ->
  exists fig fig',
    KdeV2.analyze_and_plot t_cdf name (Num target_volume) (Num density) (map Num weights)
      = Ok fig
    /\ KdeV2.analyze_and_plot t_cdf name (Num target_volume) (Num density) (map Num weights')
       = Ok fig'
    /\ KdeV2.mu fig' = KdeV2.mu fig
    /\ KdeV2.sigma fig' = KdeV2.sigma fig
    /\ KdeV2.t_statistic fig' = KdeV2.t_statistic fig
    /\ KdeV2.p_value fig' = KdeV2.p_value fig
    /\ KdeV2.significant fig' = KdeV2.significant fig
    /\ KdeV2.relative_error fig' = KdeV2.relative_error fig
    /\ KdeV2.trimmed_mean fig' = KdeV2.trimmed_mean fig
    /\ KdeV2.x_min fig' = KdeV2.x_min fig
    /\ KdeV2.x_max fig' = KdeV2.x_max fig.
Proof.
  intros Hn Hd Hp.
  set (volumes := map (fun w => w / density) weights).
  set (volumes' := map (fun w => w / density) weights').
  assert (Hpv : Permutation volumes' volumes)
    by (apply Permutation_sym, Permutation_map; exact Hp).
  assert (Hlen : length volumes = length weights) by apply length_map.
  assert (Hlen' : length volumes' = length weights)
    by (rewrite (Permutation_length Hpv); exact Hlen).
  assert (Hne : volumes <> []) by (intros E; rewrite E in Hlen; simpl in Hlen; lia).
  assert (Hne' : volumes' <> []) by (intros E; rewrite E in Hlen'; simpl in Hlen'; lia).
  rewrite !v2_fields. cbv zeta. rewrite !arr_div_Num by exact Hd.
  fold volumes volumes'. clearbody volumes volumes'.
  rewrite (ttest_1samp_Num t_cdf volumes), (ttest_1samp_Num t_cdf volumes') by lia.
  cbv zeta.
  rewrite !trim_mean_sixth_finite, !np_mean_Num, !np_std_Num by (try lia; assumption).
  rewrite (mean_permutation _ _ Hpv), (var_permutation _ _ Hpv),
    (std_permutation _ _ Hpv), (trimmed_mean_permutation _ _ Hpv), Hlen', Hlen.
  eexists. eexists. split; [reflexivity |]. split; [reflexivity |].
  cbn [KdeV2.mu KdeV2.sigma KdeV2.t_statistic KdeV2.p_value KdeV2.significant
       KdeV2.relative_error KdeV2.trimmed_mean KdeV2.x_min KdeV2.x_max fst snd].
  repeat (split; [reflexivity |]). reflexivity.
Qed.

(** X16. In a sample of fewer than six weights nothing is trimmed: the
    proportion 1/6 then cuts no item from either end, and the line of the
    trimmed mean is drawn where the line of the mean is.  Exact arithmetic,
    for 2 <= N < 6. *)
Theorem trimmed_mean_small_sample (name : string) (target_volume : float) (density : R)
    (weights : list R) :
  (2 <= length weights < 6)%nat -> density <> 0 ->
  exists fig,
    KdeV2.analyze_and_plot t_cdf name target_volume (Num density) (map Num weights) = Ok fig
    /\ KdeV2.trimmed_mean fig = Some (KdeV2.mu fig).
Proof.
  intros Hn Hd.
  set (volumes := map (fun w => w / density) weights).
  assert (Hlen : length volumes = length weights) by apply length_map.
  assert (Hne : volumes <> []) by (intros E; rewrite E in Hlen; simpl in Hlen; lia).
  rewrite v2_fields. cbv zeta. rewrite arr_div_Num by exact Hd. fold volumes.
  rewrite trim_mean_sixth_finite, np_mean_Num by exact Hne.
  eexists. split; [reflexivity |].
  cbn [KdeV2.trimmed_mean KdeV2.mu try_except]. do 2 f_equal.
  unfold Stat.trimmed_mean. rewrite Hlen.
  rewrite (Nat.div_small (length weights) 6) by lia.
  cbn [skipn]. rewrite Nat.mul_0_r, Nat.sub_0_r, <- Hlen, <- (sort_length volumes).
  rewrite firstn_all. symmetry. apply mean_permutation, sort_permutation.
Qed.

End Robust.

(* ================================================================== *)
(** * The overlay figures *)
(* ================================================================== *)

Lemma t_density_at_mean df mu sigma :
  sigma <> 0 -> Stat.t_density df mu sigma mu = SciPy.t_pdf_std df 0 / sigma.
Proof.
  intros Hs. unfold Stat.t_density.
  replace ((mu - mu) / sigma) with 0 by (field; exact Hs). reflexivity.
Qed.

Lemma peak_t_height (i : instrument) (x_curve : ndarray) :
  valid i -> 0 < Stat.sample_std (volumes_of i) ->
  OverlayV5.sigma_err (stats_of i) = Num (Stat.sample_std (errors_of i))
  /\ OverlayV5.peak_t (OverlayV5.plot_t x_curve (stats_of i))
     = (OverlayV5.mu_err (stats_of i),
        Num (SciPy.t_pdf_std (Z.of_nat (length (i_weights i)) - 1) 0
             / Stat.sample_std (errors_of i))).
Proof.
  intros Hv Hs. generalize Hv. intros [Hn _].
  pose proof (errors_std_pos i Hv Hs) as Hse.
  unfold OverlayV5.plot_t. cbn [OverlayV5.peak_t]. rewrite stats_of_valid by exact Hv.
  cbn [OverlayV5.mu_err OverlayV5.sigma_err OverlayV5.df].
  rewrite t_pdf_finite by (try lia; exact Hse).
  rewrite t_density_at_mean by lra. split; reflexivity.
Qed.

(** X17. In the overlay of t-distribution curves the height of a peak times
    the standard deviation of the relative errors is the same for all
    instruments with the same number of weights: of two such instruments
    the one with the smaller standard deviation has the higher peak.  Exact
    arithmetic. *)
Theorem narrower_is_taller (i1 i2 : instrument) (x_curve : ndarray) :
  valid i1 -> valid i2 -> length (i_weights i1) = length (i_weights i2) ->
  0 < Stat.sample_std (volumes_of i1) -> 0 < Stat.sample_std (volumes_of i2) ->
  exists h1 h2 s1 s2,
    OverlayV5.peak_t (OverlayV5.plot_t x_curve (stats_of i1))
      = (OverlayV5.mu_err (stats_of i1), Num h1)
    /\ OverlayV5.peak_t (OverlayV5.plot_t x_curve (stats_of i2))
       = (OverlayV5.mu_err (stats_of i2), Num h2)
    /\ OverlayV5.sigma_err (stats_of i1) = Num s1
    /\ OverlayV5.sigma_err (stats_of i2) = Num s2
    /\ 0 < h1 /\ 0 < h2
    /\ h1 * s1 = h2 * s2
    /\ (h1 < h2 <-> s2 < s1).
Proof.
  intros Hv1 Hv2 Hlen Hs1 Hs2.
  destruct (peak_t_height i1 x_curve Hv1 Hs1) as [Hsig1 Hpk1].
  destruct (peak_t_height i2 x_curve Hv2 Hs2) as [Hsig2 Hpk2].
  pose proof (errors_std_pos i1 Hv1 Hs1) as Hp1.
  pose proof (errors_std_pos i2 Hv2 Hs2) as Hp2.
  rewrite <- Hlen in Hpk2.
  assert (Hc : 0 < SciPy.t_pdf_std (Z.of_nat (length (i_weights i1)) - 1) 0).
  { apply t_pdf_std_pos. destruct Hv1 as [Hn _]. lia. }
  set (c := SciPy.t_pdf_std (Z.of_nat (length (i_weights i1)) - 1) 0) in *.
  set (s1 := Stat.sample_std (errors_of i1)) in *.
  set (s2 := Stat.sample_std (errors_of i2)) in *.
  exists (c / s1), (c / s2), s1, s2.
  split; [exact Hpk1 |]. split; [exact Hpk2 |].
  split; [exact Hsig1 |]. split; [exact Hsig2 |].
  split; [apply Rdiv_lt_0_compat; assumption |].
  split; [apply Rdiv_lt_0_compat; assumption |].
  split; [field; split; lra |].
  assert (Hi1 : 0 < / s1) by (apply Rinv_0_lt_compat; exact Hp1).
  assert (Hi2 : 0 < / s2) by (apply Rinv_0_lt_compat; exact Hp2).
  unfold Rdiv. split.
  - intros H. apply Rmult_lt_reg_l in H; [| exact Hc].
    destruct (Rlt_le_dec s2 s1) as [Hlt | Hle]; [exact Hlt |].
    pose proof (Rinv_le_contravar s1 s2 Hp1 Hle). lra.
  - intros H. apply Rmult_lt_compat_l; [exact Hc |].
    apply Rinv_lt_contravar; [apply Rmult_lt_0_compat; assumption | exact H].
Qed.

Lemma errors_in_all (group : list instrument) i e :
  In i group -> In e (errors_of i) -> In e (all_errors group).
Proof.
  intros Hi He. unfold all_errors. apply in_flat_map. exists i. auto.
Qed.

Lemma floor10_nonpos x : Stat.floor10 x <= 0 <-> x < 1 / 10.
Proof.
  unfold Stat.floor10. pose proof (Zfloor_bound (x * 10)) as [H1 H2]. split.
  - intros H. assert (Hz : IZR (Zfloor (x * 10)) <= 0) by lra.
    lra.
  - intros H. assert (Hz : (Zfloor (x * 10) < 1)%Z).
    { apply lt_IZR. lra. }
    assert (Hz' : IZR (Zfloor (x * 10)) <= 0) by (apply IZR_le; lia). lra.
Qed.

Lemma ceil10_nonneg x : 0 <= Stat.ceil10 x <-> - (1 / 10) < x.
Proof.
  unfold Stat.ceil10. pose proof (Zceil_bound (x * 10)) as [H1 H2]. split.
  - intros H. assert (Hz : 0 <= IZR (Zceil (x * 10))) by lra. lra.
  - intros H. assert (Hz : (-1 < Zceil (x * 10))%Z).
    { apply lt_IZR. lra. }
    assert (Hz' : 0 <= IZR (Zceil (x * 10))) by (apply IZR_le; lia). lra.
Qed.

(** X18. The common x-axis of an overlay covers the data: every relative
    error of every instrument of the group lies within the limits, which
    are whole tenths of a percent.  The line of the target (0 % error) is
    drawn before the limits are set, and falls within them exactly when the
    smallest error less four times the largest standard deviation is below
    0.1 and the largest error plus that much is above -0.1.  Exact
    arithmetic, for a group of instruments with distinct names, N >= 2,
    positive target and density. *)
Theorem overlay_range_covers (group_name output_dir : string) (group : list instrument) :
  group <> [] -> Forall valid group -> NoDup (map i_name group) ->
  exists figs a b m M S,
    OverlayV5.generate_overlay_plots group_name (map experiment_of group) output_dir
      = Ok figs
    /\ OverlayV5.x_min figs = Num a /\ OverlayV5.x_max figs = Num b
    /\ (forall i e, In i group -> In e (errors_of i) -> a <= e <= b)
    /\ (exists za zb, a = IZR za / 10 /\ b = IZR zb / 10)
    /\ Stat.is_min m (all_errors group) /\ Stat.is_max M (all_errors group)
    /\ Stat.is_max S (map (fun i => Stat.sample_std (errors_of i)) group)
    /\ (a <= 0 <= b <-> m - 4 * S < 1 / 10 /\ - (1 / 10) < M + 4 * S).
Proof.
  intros Hne Hv Hnd.
  destruct (generate_overlay_valid group_name output_dir group Hne Hv Hnd)
    as [m [M [S [Hm [HM [HS Hfig]]]]]].
  cbv zeta in Hfig.
  assert (HS0 : 0 <= S).
  { destruct HS as [Hin _]. apply in_map_iff in Hin. destruct Hin as [i [<- _]].
    apply sample_std_nonneg. }
  eexists. exists (Stat.floor10 (m - 4 * S)), (Stat.ceil10 (M + 4 * S)), m, M, S.
  split; [exact Hfig |]. cbn [OverlayV5.x_min OverlayV5.x_max].
  split; [reflexivity |]. split; [reflexivity |]. split.
  { intros i e Hi He. pose proof (errors_in_all group i e Hi He) as Hin.
    destruct Hm as [_ Hm]. destruct HM as [_ HM].
    specialize (Hm e Hin). specialize (HM e Hin).
    pose proof (floor10_le (m - 4 * S)). pose proof (ceil10_ge (M + 4 * S)). lra. }
  split; [eexists; eexists; split; reflexivity |].
  split; [exact Hm |]. split; [exact HM |]. split; [exact HS |].
  rewrite <- floor10_nonpos, <- ceil10_nonneg. tauto.
Qed.

(* ------------------------------------------------------------------ *)
(** ** The density estimate of the relative errors *)

Lemma gaussian_kde_value l :
  (2 <= length l)%nat -> 0 < Stat.sample_std l ->
  SciPy.gaussian_kde (map Num l)
  = Ok {| SciPy.dataset := map Num l;
          SciPy.covariance :=
            Stat.sample_var l
            * (Rpower (INR (length l)) (- (1 / 5)) * Rpower (INR (length l)) (- (1 / 5))) |}.
Proof.
  intros Hn Hs. unfold SciPy.gaussian_kde. cbv zeta. rewrite length_map.
  replace (length l <=? 1)%nat with false by (symmetry; apply Nat.leb_gt; lia).
  rewrite np_var_Num by auto. cbn [fmul].
  rewrite Rltb_true; [reflexivity |].
  apply Rmult_lt_0_compat; [apply sample_std_pos_var; auto | apply scott_factor_pos].
Qed.

Lemma kde_density_affine a b l c p :
  0 < a -> 0 < c -> l <> [] ->
  Stat.kde_density (map (fun x => a * x + b) l) (a * a * c) (a * p + b)
  = Stat.kde_density l c p / a.
Proof.
  intros Ha Hc Hne. unfold Stat.kde_density. rewrite map_map, length_map.
  rewrite (map_ext (fun x => exp (- ((a * x + b - (a * p + b)) * (a * x + b - (a * p + b))
                                     / (2 * (a * a * c)))))
                   (fun xi => exp (- ((xi - p) * (xi - p) / (2 * c)))))
    by (intros x; f_equal; field; lra).
  replace (2 * PI * (a * a * c)) with (a * a * (2 * PI * c)) by ring.
  assert (Hpi : 0 < 2 * PI * c) by (generalize PI_RGT_0; nra).
  rewrite sqrt_mult by nra. rewrite sqrt_square by lra.
  assert (Hsq : 0 < sqrt (2 * PI * c)) by (apply sqrt_lt_R0; exact Hpi).
  field. repeat split; try lra. apply INR_length_neq_0. exact Hne.
Qed.

(** X19. The density estimate of the overlay script is the density estimate
    of the single-instrument script in other units: for the same weights
    the kernel variance of the relative errors is (100 / target)^2 times
    the kernel variance of the volumes, and the estimate at the relative
    error of a volume [v] is the estimate at [v] times target / 100.  Exact
    arithmetic, for N >= 2, positive target and density, and a positive
    standard deviation. *)
Theorem kde_of_errors_is_kde_of_volumes (i : instrument) :
  valid i -> 0 < Stat.sample_std (volumes_of i) ->
  exists kde_v kde_e,
    SciPy.gaussian_kde (arr_div (map Num (i_weights i)) (Num (i_density i))) = Ok kde_v
    /\ SciPy.gaussian_kde (OverlayV5.relative_errors (stats_of i)) = Ok kde_e
    /\ SciPy.covariance kde_e
       = 100 / i_target i * (100 / i_target i) * SciPy.covariance kde_v
    /\ forall v, exists d,
         0 < d
         /\ SciPy.kde_evaluate kde_v (Num v) = Num d
         /\ SciPy.kde_evaluate kde_e (Num ((v - i_target i) / i_target i * 100))
            = Num (d * i_target i / 100).
Proof.
  intros Hv Hs. generalize Hv. intros [Hn [Ht Hd]].
  pose proof (errors_std_pos i Hv Hs) as Hse.
  assert (Hlen : length (volumes_of i) = length (i_weights i)) by apply length_map.
  assert (Hne : volumes_of i <> [])
    by (intros E; rewrite E in Hlen; simpl in Hlen; lia).
  assert (Herr : errors_of i
                 = map (fun v => 100 / i_target i * v + - 100) (volumes_of i))
    by apply relative_errors_affine.
  assert (Hlen' : length (errors_of i) = length (volumes_of i))
    by (rewrite Herr; apply length_map).
  assert (Ha : 0 < 100 / i_target i) by (apply Rdiv_lt_0_compat; lra).
  rewrite arr_div_Num by lra. fold (volumes_of i).
  rewrite stats_of_valid by exact Hv. cbn [OverlayV5.relative_errors].
  rewrite (gaussian_kde_value (volumes_of i)) by (try lia; exact Hs).
  rewrite (gaussian_kde_value (errors_of i)) by (try lia; exact Hse).
  set (factor2 := Rpower (INR (length (volumes_of i))) (- (1 / 5))
                  * Rpower (INR (length (volumes_of i))) (- (1 / 5))).
  assert (Hf : 0 < factor2) by apply scott_factor_pos.
  assert (Hc : 0 < Stat.sample_var (volumes_of i) * factor2).
  { apply Rmult_lt_0_compat; [apply sample_std_pos_var; exact Hs | exact Hf]. }
  assert (Hcov : Stat.sample_var (errors_of i)
                 * (Rpower (INR (length (errors_of i))) (- (1 / 5))
                    * Rpower (INR (length (errors_of i))) (- (1 / 5)))
                 = 100 / i_target i * (100 / i_target i)
                   * (Stat.sample_var (volumes_of i) * factor2)).
  { rewrite Hlen'. fold factor2. rewrite Herr, var_affine by exact Hne. ring. }
  rewrite Hcov.
  eexists. eexists. split; [reflexivity |]. split; [reflexivity |].
  cbn [SciPy.covariance]. split; [reflexivity |].
  intros v. exists (Stat.kde_density (volumes_of i) (Stat.sample_var (volumes_of i) * factor2) v).
  split; [apply kde_density_pos; assumption |].
  split; [apply kde_evaluate_finite; assumption |].
  rewrite kde_evaluate_finite.
  - f_equal.
    replace ((v - i_target i) / i_target i * 100) with (100 / i_target i * v + - 100)
      by (field; lra).
    rewrite Herr, kde_density_affine by assumption. field. lra.
  - intros E. rewrite E in Hlen'. rewrite <- Hlen' in Hlen. simpl in Hlen. lia.
  - apply Rmult_lt_0_compat; [nra | exact Hc].
Qed.

(* ================================================================== *)
(** * Instances of the further properties *)
(* ================================================================== *)

Lemma pair_spread : 0 < Stat.sample_std (map (fun w => w / 1) [1; 3]).
Proof. cbn [map]. apply std_pair_pos. lra. Qed.

Lemma burette_spread : 0 < Stat.sample_std (volumes_of burette).
Proof.
  unfold volumes_of. cbn [burette i_weights i_density map]. apply std_pair_pos. lra.
Qed.

Lemma six_weights_bounded : forall x, In x ([] ++ [1; 2; 3; 4; 5]) -> x <= 6.
Proof.
  intros x Hx. cbn [app In] in Hx.
  repeat (destruct Hx as [<- | Hx]; [lra |]). contradiction.
Qed.

Lemma six_le_ten : 6 <= 10.
Proof. lra. Qed.

(** Weights in grams and in tenths of a gram. *)
Lemma unit_change_invariant_witness :
  exists fig fig',
    VolumeV11.analyze_and_plot cauchy_cdf "pipette"%string (Num 2) (Num 1) (map Num [1; 3])
      = Ok fig
    /\ VolumeV11.analyze_and_plot cauchy_cdf "pipette"%string (Num (10 * 2)) (Num 1)
         (map Num (map (Rmult 10) [1; 3]))
       = Ok fig'
    /\ VolumeV11.t_statistic fig' = VolumeV11.t_statistic fig.
Proof.
  destruct (unit_change_invariant cauchy_cdf "pipette"%string 2 1 10 [1; 3]
              (le_n 2) R1_neq_R0 (Rgt_not_eq _ _ Rlt_0_2) (IZR_lt 0 10 eq_refl) pair_spread)
    as [fig [fig' [H1 [H2 [_ [_ [Ht _]]]]]]].
  exists fig, fig'. split; [exact H1 |]. split; [exact H2 | exact Ht].
Defined.

Lemma sigma_ticks_in_range_witness :
  exists fig ticks,
    VolumeV11.analyze_and_plot cauchy_cdf "pipette"%string (Num 2) (Num 1) (map Num [1; 3])
      = Ok fig
    /\ VolumeV11.sigma_ticks fig = map Num ticks
    /\ StronglySorted Rle ticks.
Proof.
  destruct (sigma_ticks_in_range cauchy_cdf "pipette"%string 2 1 [1; 3] (le_n 2) R1_neq_R0)
    as [fig [ticks [a [b [H1 [H2 [_ [_ [_ [_ [H3 _]]]]]]]]]]].
  exists fig, ticks. split; [exact H1 |]. split; [exact H2 | exact H3].
Defined.

Lemma target_line_visible_witness :
  exists fig a b,
    VolumeV11.analyze_and_plot cauchy_cdf "pipette"%string (Num 2) (Num 1) (map Num [1; 3])
      = Ok fig
    /\ VolumeV11.x_min fig = Num a /\ VolumeV11.x_max fig = Num b.
Proof.
  destruct (target_line_visible cauchy_cdf "pipette"%string 2 1 [1; 3]
              (le_n 2) R1_neq_R0 pair_spread)
    as [fig [a [b [t [H1 [H2 [H3 _]]]]]]].
  exists fig, a, b. split; [exact H1 |]. split; [exact H2 | exact H3].
Defined.

(** Six weights, the largest of which is read as 10 instead of 6. *)
Lemma trimmed_mean_ignores_extremes_witness :
  exists fig fig' m,
    KdeV2.analyze_and_plot cauchy_cdf "pipette"%string (Num 3) (Num 1)
      (map Num ([] ++ 6 :: [1; 2; 3; 4; 5])) = Ok fig
    /\ KdeV2.analyze_and_plot cauchy_cdf "pipette"%string (Num 3) (Num 1)
         (map Num ([] ++ 10 :: [1; 2; 3; 4; 5])) = Ok fig'
    /\ KdeV2.trimmed_mean fig = Some (Num m)
    /\ KdeV2.trimmed_mean fig' = Some (Num m).
Proof.
  destruct (trimmed_mean_ignores_extremes cauchy_cdf "pipette"%string (Num 3) 1 6 10
              [] [1; 2; 3; 4; 5] (le_n 5) Rlt_0_1
              (or_introl (conj six_weights_bounded six_le_ten)))
    as [fig [fig' [m [H1 [H2 [H3 [H4 _]]]]]]].
  exists fig, fig', m. split; [exact H1 |]. split; [exact H2 |]. split; [exact H3 | exact H4].
Defined.

Lemma order_of_readings_irrelevant_witness :
  exists fig fig',
    KdeV2.analyze_and_plot cauchy_cdf "pipette"%string (Num 2) (Num 1) (map Num [1; 3])
      = Ok fig
    /\ KdeV2.analyze_and_plot cauchy_cdf "pipette"%string (Num 2) (Num 1) (map Num [3; 1])
       = Ok fig'
    /\ KdeV2.mu fig' = KdeV2.mu fig
    /\ KdeV2.p_value fig' = KdeV2.p_value fig.
Proof.
  destruct (order_of_readings_irrelevant cauchy_cdf "pipette"%string 2 1 [1; 3] [3; 1]
              (le_n 2) R1_neq_R0 (perm_swap 3 1 []))
    as [fig [fig' [H1 [H2 [H3 [_ [_ [H4 _]]]]]]]].
  exists fig, fig'. split; [exact H1 |]. split; [exact H2 |]. split; [exact H3 | exact H4].
Defined.

Lemma trimmed_mean_small_sample_witness :
  exists fig,
    KdeV2.analyze_and_plot cauchy_cdf "pipette"%string (Num 2) (Num 1) (map Num [1; 3])
      = Ok fig
    /\ KdeV2.trimmed_mean fig = Some (KdeV2.mu fig).
Proof.
  apply (trimmed_mean_small_sample cauchy_cdf "pipette"%string (Num 2) 1 [1; 3]).
  - cbn [length]. lia.
  - exact R1_neq_R0.
Defined.

Lemma narrower_is_taller_witness :
  exists h1 h2 s1 s2,
    OverlayV5.peak_t (OverlayV5.plot_t [] (stats_of pipette))
      = (OverlayV5.mu_err (stats_of pipette), Num h1)
    /\ OverlayV5.peak_t (OverlayV5.plot_t [] (stats_of burette))
       = (OverlayV5.mu_err (stats_of burette), Num h2)
    /\ OverlayV5.sigma_err (stats_of pipette) = Num s1
    /\ OverlayV5.sigma_err (stats_of burette) = Num s2
    /\ h1 * s1 = h2 * s2.
Proof.
  destruct (narrower_is_taller pipette burette [] pipette_valid burette_valid eq_refl
              pipette_spread burette_spread)
    as [h1 [h2 [s1 [s2 [H1 [H2 [H3 [H4 [_ [_ [H5 _]]]]]]]]]]].
  exists h1, h2, s1, s2.
  split; [exact H1 |]. split; [exact H2 |]. split; [exact H3 |]. split; [exact H4 | exact H5].
Defined.

Lemma overlay_range_covers_witness :
  exists figs a b,
    OverlayV5.generate_overlay_plots "group"%string (map experiment_of [pipette; burette])
      "out"%string = Ok figs
    /\ OverlayV5.x_min figs = Num a /\ OverlayV5.x_max figs = Num b
    /\ forall i e, In i [pipette; burette] -> In e (errors_of i) -> a <= e <= b.
Proof.
  destruct (overlay_range_covers "group"%string "out"%string [pipette; burette]
              instruments_nonempty
              (Forall_cons _ pipette_valid (Forall_cons _ burette_valid (Forall_nil _)))
              instruments_distinct)
    as [figs [a [b [m [M [S [H1 [H2 [H3 [H4 _]]]]]]]]]].
  exists figs, a, b. split; [exact H1 |]. split; [exact H2 |]. split; [exact H3 | exact H4].
Defined.

Lemma kde_of_errors_is_kde_of_volumes_witness :
  exists kde_v kde_e,
    SciPy.gaussian_kde (arr_div (map Num (i_weights pipette)) (Num (i_density pipette)))
      = Ok kde_v
    /\ SciPy.gaussian_kde (OverlayV5.relative_errors (stats_of pipette)) = Ok kde_e
    /\ SciPy.covariance kde_e
       = 100 / i_target pipette * (100 / i_target pipette) * SciPy.covariance kde_v.
Proof.
  destruct (kde_of_errors_is_kde_of_volumes pipette pipette_valid pipette_spread)
    as [kde_v [kde_e [H1 [H2 [H3 _]]]]].
  exists kde_v, kde_e. split; [exact H1 |]. split; [exact H2 | exact H3].
Defined.

(* ================================================================== *)
(** * Deviation, sign and p-value *)
(* ================================================================== *)

Lemma quotient_sign d s :
  0 < s -> (0 < d / s <-> 0 < d) /\ (d / s < 0 <-> d < 0) /\ (d / s = 0 <-> d = 0).
Proof.
  intros Hs. assert (Hi : 0 < / s) by (apply Rinv_0_lt_compat; exact Hs).
  assert (Hd : d / s * s = d) by (field; lra).
  unfold Rdiv in *. repeat split; intros H; nra.
Qed.

Lemma cauchy_increasing : increasing_cdf cauchy_cdf.
Proof.
  intros df x y Hxy. unfold cauchy_cdf.
  assert (Hpi : 0 < / PI) by (apply Rinv_0_lt_compat, PI_RGT_0).
  assert (Ha : atan x <= atan y).
  { destruct Hxy as [Hlt | ->]; [left; apply atan_increasing; exact Hlt | right; reflexivity]. }
  unfold Rdiv. nra.
Qed.

Section Deviation.

Variable t_cdf : Z -> R -> R.

(** X20. Of two samples of the same size and the same standard deviation,
    the one whose mean lies further from the target has the p-value that
    is not larger, provided the distribution function does not decrease;
    so when the nearer one is called significant, the further one is too.
    Exact arithmetic, for N >= 2 and a positive standard deviation. *)
Theorem p_value_decreases_with_deviation (name1 name2 : string)
    (target_volume density : R) (weights1 weights2 : list R) :
  increasing_cdf t_cdf ->
  (2 <= length weights1)%nat -> length weights1 = length weights2 -> density <> 0 ->
  let volumes1 := map (fun w => w / density) weights1 in
  let volumes2 := map (fun w => w / density) weights2 in
  0 < Stat.sample_std volumes1 ->
  Stat.sample_std volumes1 = Stat.sample_std volumes2 ->
  Rabs (Stat.mean volumes1 - target_volume) <= Rabs (Stat.mean volumes2 - target_volume) ->
  exists fig1 fig2 p1 p2,
    VolumeV11.analyze_and_plot t_cdf name1 (Num target_volume) (Num density) (map Num weights1)
      = Ok fig1
    /\ VolumeV11.analyze_and_plot t_cdf name2 (Num target_volume) (Num density)
         (map Num weights2)
       = Ok fig2
    /\ VolumeV11.p_value fig1 = Num p1 /\ VolumeV11.p_value fig2 = Num p2
    /\ p2 <= p1
    /\ (VolumeV11.significant fig1 = true -> VolumeV11.significant fig2 = true).
Proof.
  intros Hinc Hn Hlen Hd volumes1 volumes2 Hs Hss Hdev.
  assert (L1 : length volumes1 = length weights1) by apply length_map.
  assert (L2 : length volumes2 = length weights1) by (rewrite Hlen; apply length_map).
  rewrite !v11_fields. cbv zeta. rewrite !arr_div_Num by exact Hd.
  fold volumes1 volumes2. clearbody volumes1 volumes2.
  rewrite (ttest_1samp_regular t_cdf volumes1), (ttest_1samp_regular t_cdf volumes2)
    by (try lia; rewrite <- ?Hss; exact Hs).
  rewrite <- Hss, L1, L2.
  assert (Hse : 0 < Stat.sample_std volumes1 / sqrt (INR (length weights1))).
  { apply Rdiv_lt_0_compat; [exact Hs |]. apply sqrt_lt_R0, lt_0_INR. lia. }
  set (se := Stat.sample_std volumes1 / sqrt (INR (length weights1))) in *.
  assert (Ht : Rabs ((Stat.mean volumes1 - target_volume) / se)
               <= Rabs ((Stat.mean volumes2 - target_volume) / se)).
  { unfold Rdiv. rewrite !Rabs_mult. apply Rmult_le_compat_r; [apply Rabs_pos | exact Hdev]. }
  pose proof (Hinc (Z.of_nat (length weights1) - 1)%Z _ _ Ht) as Hcdf.
  eexists. eexists. eexists. eexists. split; [reflexivity |]. split; [reflexivity |].
  cbn [VolumeV11.p_value VolumeV11.significant snd flt].
  split; [reflexivity |]. split; [reflexivity |]. split; [lra |].
  rewrite !Rltb_spec. lra.
Qed.

(** X21. The t-statistic and the relative error have the sign of the
    deviation of the mean from the target: both are positive when the mean
    volume is above the target, both negative when it is below, both 0 when
    it is the target.  Exact arithmetic, for N >= 2, a positive target and a
    positive standard deviation. *)
Theorem error_sign_agrees (name : string) (target_volume density : R) (weights : list R) :
  (2 <= length weights)%nat -> density <> 0 -> 0 < target_volume ->
  let volumes := map (fun w => w / density) weights in
  0 < Stat.sample_std volumes ->
  exists fig t e,
    VolumeV11.analyze_and_plot t_cdf name (Num target_volume) (Num density) (map Num weights)
      = Ok fig
    /\ VolumeV11.t_statistic fig = Num t
    /\ VolumeV11.relative_error fig = Num e
    /\ (0 < t <-> target_volume < Stat.mean volumes)
    /\ (0 < e <-> target_volume < Stat.mean volumes)
    /\ (t < 0 <-> Stat.mean volumes < target_volume)
    /\ (e < 0 <-> Stat.mean volumes < target_volume)
    /\ (t = 0 <-> e = 0).
Proof.
  intros Hn Hd Ht volumes Hs.
  assert (Hlen : length volumes = length weights) by apply length_map.
  assert (Hne : volumes <> []) by (intros E; rewrite E in Hlen; simpl in Hlen; lia).
  rewrite v11_fields. cbv zeta. rewrite arr_div_Num by exact Hd.
  fold volumes. clearbody volumes.
  rewrite ttest_1samp_regular by (try lia; exact Hs).
  rewrite np_mean_Num by exact Hne.
  rewrite fsub_Num, fdiv_Num by lra. cbn [fmul].
  assert (Hse : 0 < Stat.sample_std volumes / sqrt (INR (length volumes))).
  { apply Rdiv_lt_0_compat; [exact Hs |]. apply sqrt_lt_R0, lt_0_INR. lia. }
  destruct (quotient_sign (Stat.mean volumes - target_volume) _ Hse) as [T1 [T2 T3]].
  destruct (quotient_sign (Stat.mean volumes - target_volume) _ Ht) as [E1 [E2 E3]].
  eexists. eexists. eexists. split; [reflexivity |].
  cbn [VolumeV11.t_statistic VolumeV11.relative_error fst].
  split; [reflexivity |]. split; [reflexivity |].
  split; [rewrite T1; lra |]. split; [split; intros H; lra |].
  split; [rewrite T2; lra |]. split; [split; intros H; lra |].
  rewrite T3. split; intros H; lra.
Qed.

End Deviation.

(** A sample whose mean is the target and one whose mean is off by 1. *)
Lemma p_value_decreases_with_deviation_witness :
  exists fig1 fig2 p1 p2,
    VolumeV11.analyze_and_plot cauchy_cdf "near"%string (Num 2) (Num 1) (map Num [1; 3])
      = Ok fig1
    /\ VolumeV11.analyze_and_plot cauchy_cdf "far"%string (Num 2) (Num 1) (map Num [2; 4])
       = Ok fig2
    /\ VolumeV11.p_value fig1 = Num p1 /\ VolumeV11.p_value fig2 = Num p2
    /\ p2 <= p1.
Proof.
  assert (Hss : Stat.sample_std (map (fun w => w / 1) [1; 3])
                = Stat.sample_std (map (fun w => w / 1) [2; 4])).
  { cbn [map]. unfold Stat.sample_std. rewrite !var_pair. f_equal. field. }
  assert (Hdev : Rabs (Stat.mean (map (fun w => w / 1) [1; 3]) - 2)
                 <= Rabs (Stat.mean (map (fun w => w / 1) [2; 4]) - 2)).
  { cbn [map]. rewrite !mean_pair.
    replace ((1 / 1 + 3 / 1) / 2 - 2) with 0 by field.
    rewrite Rabs_R0. apply Rabs_pos. }
  destruct (p_value_decreases_with_deviation cauchy_cdf "near"%string "far"%string 2 1
              [1; 3] [2; 4] cauchy_increasing (le_n 2) eq_refl R1_neq_R0 pair_spread Hss Hdev)
    as [fig1 [fig2 [p1 [p2 [H1 [H2 [H3 [H4 [H5 _]]]]]]]]].
  exists fig1, fig2, p1, p2.
  split; [exact H1 |]. split; [exact H2 |]. split; [exact H3 |]. split; [exact H4 | exact H5].
Defined.

Lemma error_sign_agrees_witness :
  exists fig t e,
    VolumeV11.analyze_and_plot cauchy_cdf "pipette"%string (Num 2) (Num 1) (map Num [1; 3])
      = Ok fig
    /\ VolumeV11.t_statistic fig = Num t
    /\ VolumeV11.relative_error fig = Num e
    /\ (t = 0 <-> e = 0).
Proof.
  destruct (error_sign_agrees cauchy_cdf "pipette"%string 2 1 [1; 3]
              (le_n 2) R1_neq_R0 Rlt_0_2 pair_spread)
    as [fig [t [e [H1 [H2 [H3 [_ [_ [_ [_ H4]]]]]]]]]].
  exists fig, t, e. split; [exact H1 |]. split; [exact H2 |]. split; [exact H3 | exact H4].
Defined.
